(** * Session store (sandbox/server/session_store.py)

    A shallow embedding of the pluggable session store: the session record
    with its serialisation helpers, the in-memory store, the Redis-backed
    store and the factory that picks one of them.

    Conventions of the embedding.
    - Python is dynamically typed: an attribute of [SessionData] holds any
      value.  Values are the ones the [json] module reads and writes
      ([pyval]); the annotated types ([str], [int], [float],
      [Dict[str, str]]) are the predicate [valid].
    - A [float] is a finite binary64 number, held as the rational it
      stands for ([Qc]).  Float arithmetic rounds to the nearest binary64
      number, ties to even ([Binary64.round]); a difference too large for
      binary64 is an infinity ([xfloat]).  Comparisons of floats with ints
      and floats are exact, as in Python.  NaN and infinite floats do not
      occur as values.
    - [time.time()] is an argument [now] of every function that reads the
      clock; one call of a store method reads one clock value.
    - A raised exception is the [Raise] case of [result].
    - The [json] module, the Redis client and the clock are not part of
      this file: [json.dumps] and [json.loads] are the two methods of the
      class [Json], over any type [payload] of texts, and what the library
      promises of them is the class [JsonLaws]; [from_url] is an argument
      of [get_store]; which expiration the client sends and the server
      takes is the class [RedisRules].  A command of the Redis store
      reaches its server: connection errors are not modelled.
    - [async]/[await] only sequences the calls; a method is a function from
      the state before to the result and the state after. *)

From Stdlib Require Import QArith Qcanon Qround Qpower Lqa.
From stdpp Require Import gmap strings numbers.

Set Warnings "-register-all".

Local Open Scope Z_scope.

(** ** Python values and exceptions *)

Inductive pyval : Type :=
  | VNone
  | VBool (b : bool)
  | VInt (z : Z)
  | VFloat (q : Qc)
  | VStr (s : string)
  | VList (l : list pyval)
  | VDict (m : gmap string pyval).

Inductive exn : Type :=
  | JSONDecodeError
  | KeyError (k : string)
  | TypeError
  | ValueError
  | OverflowError
  | DataError
  | ResponseError.

Inductive result (A : Type) : Type :=
  | Ok (a : A)
  | Raise (e : exn).
Arguments Ok {A} a.
Arguments Raise {A} e.

#[global] Instance result_ret : MRet result := λ A a, Ok a.
#[global] Instance result_bind : MBind result := λ A B f r,
  match r with
  | Ok a => f a
  | Raise e => Raise e
  end.

(** ** binary64 arithmetic

    The result of a float operation on finite numbers: a finite number or
    an infinity. *)

Inductive xfloat : Type :=
  | Fin (q : Qc)
  | PInf
  | NInf.

Module Binary64.

Local Open Scope Q_scope.

(** The integer nearest to [s], ties to even. *)
Definition rne (s : Q) : Z :=
  let f := Qfloor s in
  match Qcompare (s - inject_Z f) (1 # 2) with
  | Lt => f
  | Gt => (f + 1)%Z
  | Eq => if Z.even f then f else (f + 1)%Z
  end.

(** The exponent [e] with [2^e <= x < 2^(e+1)], for [x > 0]. *)
Definition ilog2 (x : Q) : Z :=
  let e0 := (Z.log2 (Qnum x) - Z.log2 (Zpos (Qden x)))%Z in
  if Qle_bool (2 ^ e0) x then e0 else (e0 - 1)%Z.

(** The exponent of the last place of the binary64 numbers around [x]:
    53 bits of precision, and [2^-1074] for the subnormal numbers. *)
Definition quantum (x : Q) : Z := Z.max (ilog2 x - 52) (-1074).

Definition round_pos (x : Q) : Q :=
  inject_Z (rne (x / 2 ^ quantum x)) * 2 ^ quantum x.

(** Round to nearest, ties to even, with no bound on the exponent from
    above. *)
Definition round_real (x : Q) : Q :=
  match Qnum x with
  | Z0 => 0
  | Zpos _ => round_pos x
  | Zneg _ => - round_pos (- x)
  end.

(** The binary64 number nearest to the real [x]; beyond the largest
    finite number the result is an infinity. *)
Definition round (x : Qc) : xfloat :=
  let v := round_real x in
  if Qle_bool (2 ^ 1024) v then PInf
  else if Qle_bool v (- 2 ^ 1024) then NInf
  else Fin (Q2Qc v).

(** [x > q] for the result of an operation and a number, compared
    exactly. *)
Definition gt (x : xfloat) (q : Qc) : bool :=
  match x with
  | Fin a => bool_decide (q < a)%Qc
  | PInf => true
  | NInf => false
  end.

(** A real that is a binary64 number: rounding leaves it as it is. *)
Definition exact (x : Qc) : Prop := round x = Fin x.

(** The order of the results: [NInf], the finite numbers, [PInf]. *)
Definition le (x y : xfloat) : Prop :=
  match x, y with
  | NInf, _ => True
  | _, PInf => True
  | Fin a, Fin b => (a <= b)%Qc
  | _, _ => False
  end.

End Binary64.

Module Py.

(** Truth value of an object, as [bool(x)] computes it. *)
Definition truthy (v : pyval) : bool :=
  match v with
  | VNone => false
  | VBool b => b
  | VInt z => negb (z =? 0)
  | VFloat q => bool_decide (q ≠ 0%Qc)
  | VStr s => negb (String.eqb s "")
  | VList l => negb (Nat.eqb (length l) 0)
  | VDict m => negb (Nat.eqb (size m) 0)
  end.

(** [x or y] *)
Definition or_ (x y : pyval) : pyval := if truthy x then x else y.

(** [obj[k]] for a string [k]: only a dict can be indexed by a string. *)
Definition getitem (obj : pyval) (k : string) : result pyval :=
  match obj with
  | VDict m =>
      match m !! k with
      | Some v => Ok v
      | None => Raise (KeyError k)
      end
  | _ => Raise TypeError
  end.

(** The number a value stands for ([bool] is a subclass of [int]). *)
Definition as_number (v : pyval) : option Qc :=
  match v with
  | VBool b => Some (if b then 1%Qc else 0%Qc)
  | VInt z => Some (Qc_of_Z z)
  | VFloat q => Some q
  | _ => None
  end.

(** The float an operand of float arithmetic is converted to: an int is
    rounded to the nearest float, and is refused when it is too large for
    one. *)
Definition to_float (v : pyval) : result Qc :=
  match v with
  | VBool b => Ok (if b then 1%Qc else 0%Qc)
  | VInt z =>
      match Binary64.round (Qc_of_Z z) with
      | Fin q => Ok q
      | _ => Raise OverflowError
      end
  | VFloat q => Ok q
  | _ => Raise TypeError
  end.

(** [x - v] for a float [x]: the operand is converted, the difference
    rounded. *)
Definition float_sub (x : Qc) (v : pyval) : result xfloat :=
  y ← to_float v;
  Ok (Binary64.round (x - y)%Qc).

(** [x > v] for the float [x]: a float is compared with an int or a float
    exactly, without conversion. *)
Definition float_gt (x : xfloat) (v : pyval) : result bool :=
  match as_number v with
  | Some q => Ok (Binary64.gt x q)
  | None => Raise TypeError
  end.

End Py.

(** ** The json module

    [json.dumps] writes a value as a text and [json.loads] reads a text
    back or raises.  The one law used of them: on the values of [pyval]
    (string keys, finite floats) reading what was written gives the value
    back. *)

Class Json (payload : Type) : Type := {
  json_dumps : pyval → payload;
  json_loads : payload → result pyval
}.

Class JsonLaws (payload : Type) `{Json payload} : Prop := {
  json_loads_dumps : ∀ v : pyval, json_loads (json_dumps v) = Ok v
}.

(** ** SessionData *)

Record SessionData : Type := mkSessionData {
  language : pyval;
  ttl : pyval;
  last_used : pyval;
  files : pyval
}.

Definition set_last_used (d : SessionData) (v : pyval) : SessionData :=
  {| language := language d; ttl := ttl d; last_used := v; files := files d |}.

(** The annotated types of the four attributes. *)
Inductive valid : SessionData → Prop :=
  | valid_intro (l : string) (t : Z) (u : Qc) (m : gmap string string) :
      valid {| language := VStr l; ttl := VInt t; last_used := VFloat u;
               files := VDict (VStr <$> m) |}.

Module SessionData.

(** [__init__(self, language, ttl, files)] *)
Definition init (now : Qc) (language ttl files : pyval) : SessionData :=
  {| language := language;
     ttl := ttl;
     last_used := VFloat now;
     files := Py.or_ files (VDict ∅) |}.

Section Serialisation.

Context {payload : Type} `{Json payload}.

Definition dumps (self : SessionData) : payload :=
  json_dumps
    (VDict (<["language" := language self]>
           (<["ttl" := ttl self]>
           (<["last_used" := last_used self]>
           (<["files" := files self]> ∅))))).

Definition loads (now : Qc) (p : payload) : result SessionData :=
  obj ← json_loads p;
  l ← Py.getitem obj "language";
  t ← Py.getitem obj "ttl";
  f ← Py.getitem obj "files";
  let inst := init now l t f in
  u ← Py.getitem obj "last_used";
  Ok (set_last_used inst u).

End Serialisation.

Definition touch (now : Qc) (self : SessionData) : SessionData :=
  set_last_used self (VFloat now).

Definition expired (now : Qc) (self : SessionData) : result bool :=
  idle ← Py.float_sub now (last_used self);
  Py.float_gt idle (ttl self).

End SessionData.

(** ** In-memory fallback

    The state of a [MemorySessionStore] is its [_store] dict. *)

Module Memory.

Definition create (sid : string) (data : SessionData)
    (s : gmap string SessionData) : result (unit * gmap string SessionData) :=
  Ok (tt, <[sid := data]> s).

(** [self._store.pop(sid, None)] *)
Definition delete (sid : string)
    (s : gmap string SessionData) : result (unit * gmap string SessionData) :=
  Ok (tt, base.delete sid s).

(** [data and data.expired()]: an instance of [SessionData] is always
    true, [None] is false and skips the call. *)
Definition get (now : Qc) (sid : string)
    (s : gmap string SessionData)
    : result (option SessionData * gmap string SessionData) :=
  match s !! sid with
  | Some data =>
      e ← SessionData.expired now data;
      if e : bool then
        '(_, s') ← delete sid s;
        Ok (None, s')
      else Ok (Some data, s)
  | None => Ok (None, s)
  end.

Definition save (sid : string) (data : SessionData)
    (s : gmap string SessionData) : result (unit * gmap string SessionData) :=
  Ok (tt, <[sid := data]> s).

End Memory.

(** ** The Redis client and server

    Neither is part of this repository.  The key space is modelled from
    what the specification says of the networked backend: a key holds a
    serialised record and, set with an expiration directive, is dropped by
    the server once that many seconds have passed.  What the client and
    the server decide on their own about the directive is left open, as
    the two methods of [RedisRules]. *)

(** Modelled from the spec: a key of the remote key-value service, its
    value and the time at which the service's native expiration drops it.
    [now] is the time of a command. *)
Record entry (payload : Type) : Type := mkEntry {
  value : payload;
  expire_at : option Qc
}.
Arguments mkEntry {payload} value expire_at.
Arguments value {payload} e.
Arguments expire_at {payload} e.

(** [ex_of_other]: what the client sends as expiration for an [ex] that is
    neither [None] nor an [int], or the exception it raises for it.
    [takes_ex now z]: whether the server, at time [now], takes [z] seconds
    as an expiration. *)
Class RedisRules : Type := {
  ex_of_other : pyval → result (option Z);
  takes_ex : Qc → Z → bool
}.

(** The server takes no expiration that is not positive or does not fit a
    signed 64-bit integer. *)
Class RedisLaws `{RedisRules} : Prop := {
  takes_ex_range : ∀ (now : Qc) (z : Z), takes_ex now z = true → 0 < z < 2 ^ 63
}.

Module RedisClient.

Section Commands.

Context {payload : Type} `{RedisRules}.
Implicit Types (ks : gmap string (entry payload)).

(** Modelled from the spec: the native expiration has not dropped the key
    while the time set for it has not passed. *)
Definition live (now : Qc) (e : entry payload) : bool :=
  match expire_at e with
  | Some t => bool_decide (now ≤ t)%Qc
  | None => true
  end.

(** Modelled from the spec: [GET key], the raw value or absence. *)
Definition get (now : Qc) (k : string) ks : option payload :=
  match ks !! k with
  | Some e => if live now e then Some (value e) else None
  | None => None
  end.

(** Modelled from the spec: [set(key, value, ex=ex)] sets the key to the
    value with an expiration directive of [ex] seconds.  [ex=None] sends
    no directive and an [int] is sent as it is; the server answers a
    directive it does not take with an error. *)
Definition set (now : Qc) (k : string) (v : payload) (ex : pyval) ks
    : result (gmap string (entry payload)) :=
  directive ← match ex with
              | VNone => Ok None
              | VInt z => Ok (Some z)
              | _ => ex_of_other ex
              end;
  match directive with
  | None => Ok (<[k := {| value := v; expire_at := None |}]> ks)
  | Some z =>
      if takes_ex now z
      then Ok (<[k := {| value := v;
                         expire_at := Some (now + Qc_of_Z z)%Qc |}]> ks)
      else Raise ResponseError
  end.

(** Modelled from the spec: [DEL key] removes the key, present or not. *)
Definition delete (k : string) ks : gmap string (entry payload) :=
  base.delete k ks.

End Commands.

End RedisClient.

(** ** Redis-backed store

    The state is the key space of the server the client talks to. *)

Module Redis.

Definition _key (sid : string) : string := "sf:session:" +:+ sid.

Section Methods.

Context {payload : Type} `{Json payload} `{RedisRules}.
Implicit Types (ks : gmap string (entry payload)).

Definition save (now : Qc) (sid : string) (data : SessionData) ks
    : result (unit * gmap string (entry payload)) :=
  ks' ← RedisClient.set now (_key sid) (SessionData.dumps data) (ttl data) ks;
  Ok (tt, ks').

Definition create (now : Qc) (sid : string) (data : SessionData) ks
    : result (unit * gmap string (entry payload)) :=
  save now sid data ks.

Definition delete (sid : string) ks
    : result (unit * gmap string (entry payload)) :=
  Ok (tt, RedisClient.delete (_key sid) ks).

Definition get (now : Qc) (sid : string) ks
    : result (option SessionData * gmap string (entry payload)) :=
  match RedisClient.get now (_key sid) ks with
  | None => Ok (None, ks)
  | Some p =>
      data ← SessionData.loads now p;
      e ← SessionData.expired now data;
      if e : bool then
        '(_, ks') ← delete sid ks;
        Ok (None, ks')
      else Ok (Some data, ks)
  end.

End Methods.

End Redis.

(** ** Factory

    The log lines of [get_store] are not modelled. *)

Inductive store (client : Type) : Type :=
  | MemorySessionStore (_store : gmap string SessionData)
  | RedisSessionStore (_r : client).
Arguments MemorySessionStore {client} _store.
Arguments RedisSessionStore {client} _r.

(** [os.getenv(name)] *)
Definition getenv (environ : gmap string string) (name : string) : pyval :=
  match environ !! name with
  | Some s => VStr s
  | None => VNone
  end.

Section Factory.

(** [redis.from_url(url, decode_responses=True)] after the lazy import of
    [redis.asyncio]: returns a client without opening a connection, or
    raises when the package is missing or the URL cannot be parsed. *)
Context {client : Type}.
Variable from_url : pyval → result client.

Definition new_MemorySessionStore : result (store client) :=
  Ok (MemorySessionStore ∅).

Definition new_RedisSessionStore (url : pyval) : result (store client) :=
  r ← from_url url;
  Ok (RedisSessionStore r).

Definition get_store (environ : gmap string string) : result (store client) :=
  let redis_url := Py.or_ (getenv environ "REDIS_URL") (getenv environ "REDIS_URI") in
  if Py.truthy redis_url then new_RedisSessionStore redis_url
  else new_MemorySessionStore.

End Factory.

(** What a call returns or raises, the state after it left out. *)
Definition returned {A S : Type} (r : result (A * S)) : result A :=
  match r with
  | Ok (a, _) => Ok a
  | Raise e => Raise e
  end.

(** ** The wire format and the Redis operation, as specified *)

(** The shape of the wire format: [language] a string, [ttl] an integer,
    [last_used] a number, [files] an object of strings. *)
Definition is_str (v : pyval) : bool :=
  match v with VStr _ => true | _ => false end.

Definition is_int (v : pyval) : bool :=
  match v with VInt _ => true | _ => false end.

Definition is_number (v : pyval) : bool :=
  match v with VInt _ | VFloat _ => true | _ => false end.

Definition is_str_dict (v : pyval) : bool :=
  match v with
  | VDict m => forallb (λ kv, is_str kv.2) (map_to_list m)
  | _ => false
  end.

Definition wire_shape (m : gmap string pyval) : bool :=
  from_option is_str false (m !! "language") &&
  from_option is_int false (m !! "ttl") &&
  from_option is_number false (m !! "last_used") &&
  from_option is_str_dict false (m !! "files").

Definition required_keys : list string :=
  ["language"; "ttl"; "files"; "last_used"].

(** What the specification says [create] and [save] of the Redis store do:
    put the serialised record under the prefixed session id, to expire
    [ttl] seconds later. *)
Definition set_with_expiry {payload : Type} `{Json payload}
    (now : Qc) (sid : string) (r : SessionData) (ttl_seconds : Z)
    (ks : gmap string (entry payload)) : gmap string (entry payload) :=
  <["sf:session:" +:+ sid :=
      {| value := SessionData.dumps r;
         expire_at := Some (now + Qc_of_Z ttl_seconds)%Qc |}]> ks.

(** ** Sample texts, records, stores and environments *)

(** A text as far as [json.loads] can tell: the text of a document, or a
    text that does not parse. *)
Inductive text : Type :=
  | JsonText (doc : pyval)
  | NotJson.

#[global] Instance text_json : Json text := {|
  json_dumps := JsonText;
  json_loads := λ p,
    match p with
    | JsonText v => Ok v
    | NotJson => Raise JSONDecodeError
    end
|}.

(** The value of a string of ASCII digits. *)
Fixpoint digits_value (s : string) (acc : Z) : option Z :=
  match s with
  | EmptyString => Some acc
  | String c r =>
      let n := Z.of_nat (Ascii.nat_of_ascii c) in
      if (48 <=? n) && (n <=? 57) then digits_value r (10 * acc + (n - 48))
      else None
  end.

(** A client that takes a string of digits for the number it spells and
    refuses every other value, and a server that takes an expiration from
    one second up to the largest number of seconds whose milliseconds fit
    a signed 64-bit integer. *)
#[global] Instance sample_rules : RedisRules := {|
  ex_of_other v :=
    match v with
    | VStr (String c r) =>
        match digits_value (String c r) 0 with
        | Some z => Ok (Some z)
        | None => Raise DataError
        end
    | _ => Raise DataError
    end;
  takes_ex _ z := (0 <? z) && (z <=? 9223372036854775)
|}.

Definition python_session : SessionData :=
  {| language := VStr "python";
     ttl := VInt 2;
     last_used := VFloat (Q2Qc (1000 # 1));
     files := VDict (VStr <$> {["a.py" := "x"]}) |}.

(** Last used at [2^-53], to live one second. *)
Definition early_session : SessionData :=
  {| language := VStr "python";
     ttl := VInt 1;
     last_used := VFloat (Q2Qc (1 # 9007199254740992));
     files := VDict ∅ |}.

(** Constructed at 950 with nothing to live. *)
Definition stillborn_session : SessionData :=
  {| language := VStr "python";
     ttl := VInt 0;
     last_used := VFloat (Q2Qc (950 # 1));
     files := VDict ∅ |}.

(** A record as [loads] returns it from a document whose [last_used] is
    an integer of four hundred digits. *)
Definition overflowing_session : SessionData :=
  {| language := VStr "python";
     ttl := VInt 2;
     last_used := VInt (10 ^ 400);
     files := VDict ∅ |}.

Definition older_session : SessionData :=
  {| language := VStr "bash";
     ttl := VInt 60;
     last_used := VFloat (Q2Qc (900 # 1));
     files := VDict ∅ |}.

Definition one_session : gmap string SessionData :=
  {["abc" := python_session]}.

Definition one_key : gmap string (entry text) :=
  {[Redis._key "abc" := {| value := SessionData.dumps python_session;
                           expire_at := Some (Q2Qc (1010 # 1)) |}]}.

Definition older_key : gmap string (entry text) :=
  {[Redis._key "abc" := {| value := SessionData.dumps older_session;
                           expire_at := Some (Q2Qc (960 # 1)) |}]}.

Definition no_ttl_object : gmap string pyval :=
  <["language" := VStr "python"]>
    (<["last_used" := VFloat (Q2Qc (1000 # 1))]>
    (<["files" := VDict ∅]> ∅)).

Definition misshapen_object : gmap string pyval :=
  <["language" := VInt 5]>
    (<["ttl" := VStr "soon"]>
    (<["last_used" := VNone]>
    (<["files" := VList [VInt 1]]> ∅))).

Definition null_files_object : gmap string pyval :=
  <["language" := VStr "python"]>
    (<["ttl" := VInt 2]>
    (<["last_used" := VFloat (Q2Qc (1000 # 1))]>
    (<["files" := VNone]> ∅))).

Definition annotated_object : gmap string pyval :=
  <["comment" := VStr "kept by another writer"]> null_files_object.

Definition fileless_session : SessionData :=
  {| language := VStr "python";
     ttl := VInt 2;
     last_used := VFloat (Q2Qc (1000 # 1));
     files := VNone |}.

(** A client library that takes the [redis://] scheme only; the client it
    returns is the URL it was given. *)
Definition redis_scheme_only (url : pyval) : result string :=
  match url with
  | VStr u => if String.prefix "redis://" u then Ok u else Raise ValueError
  | _ => Raise TypeError
  end.

(** * Properties *)

Ltac in_required_keys :=
  unfold required_keys;
  repeat first [apply list_elem_of_here | apply list_elem_of_further].

#[global] Instance text_json_laws : JsonLaws text.
Proof. by split. Qed.

(** ** binary64 rounding *)

Section Binary64Properties.

Local Open Scope Q_scope.

Lemma rne_bounds (s : Q) : (Qfloor s <= Binary64.rne s <= Qfloor s + 1)%Z.
Proof.
  unfold Binary64.rne. destruct (Qcompare _ _); [destruct (Z.even _) | |]; lia.
Qed.

Lemma rne_Z (z : Z) : Binary64.rne (inject_Z z) = z.
Proof.
  unfold Binary64.rne. rewrite Qfloor_Z.
  assert (H : Qcompare (inject_Z z - inject_Z z) (1 # 2) = Lt).
  { apply (proj1 (Qlt_alt _ _)). lra. }
  rewrite H. reflexivity.
Qed.

Ltac Qcompare_hyps :=
  repeat match goal with
         | H : Qcompare _ _ = Eq |- _ => apply (proj2 (Qeq_alt _ _)) in H
         | H : Qcompare _ _ = Lt |- _ => apply (proj2 (Qlt_alt _ _)) in H
         | H : Qcompare _ _ = Gt |- _ => apply (proj2 (Qgt_alt _ _)) in H
         end.

Lemma rne_mono (s t : Q) : s <= t -> (Binary64.rne s <= Binary64.rne t)%Z.
Proof.
  intros Hst. pose proof (Qfloor_resp_le s t Hst) as Hf.
  destruct (Z.eq_dec (Qfloor s) (Qfloor t)) as [Heq | Hne].
  - unfold Binary64.rne. rewrite <- Heq.
    destruct (Qcompare (s - inject_Z (Qfloor s)) (1 # 2)) eqn:Hs;
      destruct (Qcompare (t - inject_Z (Qfloor s)) (1 # 2)) eqn:Ht;
      try (destruct (Z.even (Qfloor s))); try lia;
      Qcompare_hyps; lra.
  - pose proof (rne_bounds s). pose proof (rne_bounds t). lia.
Qed.

Lemma rne_nonneg (s : Q) : 0 <= s -> (0 <= Binary64.rne s)%Z.
Proof. intros Hs. rewrite <- (rne_Z 0). apply rne_mono. exact Hs. Qed.

Lemma rne_comp (s t : Q) : s == t -> Binary64.rne s = Binary64.rne t.
Proof.
  intros Heq. apply Z.le_antisymm; apply rne_mono; lra.
Qed.

(** Powers of two *)

Lemma pow2_pos (k : Z) : 0 < 2 ^ k.
Proof. apply Qpower_0_lt. reflexivity. Qed.

Lemma pow2_plus (a b : Z) : 2 ^ (a + b) == 2 ^ a * 2 ^ b.
Proof. apply Qpower_plus. discriminate. Qed.

Lemma pow2_le (a b : Z) : (a <= b)%Z -> 2 ^ a <= 2 ^ b.
Proof. intros H. apply Qpower_le_compat_l; [exact H | discriminate]. Qed.

Lemma pow2_lt (a b : Z) : (a < b)%Z -> 2 ^ a < 2 ^ b.
Proof. intros H. apply Qpower_lt_compat_l; [exact H | reflexivity]. Qed.

Lemma pow2_inject (a : Z) : (0 <= a)%Z -> inject_Z (2 ^ a) == 2 ^ a.
Proof. intros H. apply (Zpower_Qpower 2 a H). Qed.

Lemma pow2_div (x : Q) (a b : Z) : x / 2 ^ b * 2 ^ b == x.
Proof. field. pose proof (pow2_pos b). lra. Qed.

Lemma div_pow2_le (x y : Q) (k : Z) : x <= y -> x / 2 ^ k <= y / 2 ^ k.
Proof.
  intros H. unfold Qdiv. apply Qmult_le_compat_r; [exact H |].
  apply Qlt_le_weak, Qinv_lt_0_compat, pow2_pos.
Qed.

Lemma pow2_quot (a b : Z) : 2 ^ a / 2 ^ b == 2 ^ (a - b).
Proof.
  replace a with ((a - b) + b)%Z at 1 by ring.
  rewrite pow2_plus. field. pose proof (pow2_pos b). lra.
Qed.

Lemma pow2_split (e k : Z) : 2 ^ e == 2 ^ (e - k) * 2 ^ k.
Proof. rewrite <- pow2_plus. replace (e - k + k)%Z with e by ring. reflexivity. Qed.

(** Integer logarithm of a positive rational *)

Lemma Qnum_pos (x : Q) : 0 < x -> (0 < Qnum x)%Z.
Proof. destruct x as [n d]. unfold Qlt; simpl. lia. Qed.

Lemma ilog2_spec (x : Q) : 0 < x -> 2 ^ Binary64.ilog2 x <= x /\ x < 2 ^ (Binary64.ilog2 x + 1).
Proof.
  intros Hx. pose proof (Qnum_pos x Hx) as Hn.
  destruct (Z.log2_spec (Qnum x) Hn) as [Hn1 Hn2].
  destruct (Z.log2_spec (Zpos (Qden x)) eq_refl) as [Hd1 Hd2].
  pose proof (Z.log2_nonneg (Qnum x)) as Ha.
  pose proof (Z.log2_nonneg (Zpos (Qden x))) as Hb.
  set (a := Z.log2 (Qnum x)) in *. set (b := Z.log2 (Zpos (Qden x))) in *.
  assert (Hxd : x * inject_Z (Zpos (Qden x)) == inject_Z (Qnum x)).
  { destruct x as [n d]. unfold Qeq; simpl. rewrite Pos.mul_1_r. ring. }
  assert (Hdpos : 0 < inject_Z (Zpos (Qden x))) by reflexivity.
  assert (Hn1q : 2 ^ a <= inject_Z (Qnum x)).
  { rewrite <- pow2_inject by exact Ha. rewrite <- Zle_Qle. exact Hn1. }
  assert (Hn2q : inject_Z (Qnum x) < 2 ^ (a + 1)).
  { rewrite <- pow2_inject by lia. rewrite <- Zlt_Qlt.
    replace (a + 1)%Z with (Z.succ a) by lia. exact Hn2. }
  assert (Hd1q : 2 ^ b <= inject_Z (Zpos (Qden x))).
  { rewrite <- pow2_inject by exact Hb. rewrite <- Zle_Qle. exact Hd1. }
  assert (Hd2q : inject_Z (Zpos (Qden x)) < 2 ^ (b + 1)).
  { rewrite <- pow2_inject by lia. rewrite <- Zlt_Qlt.
    replace (b + 1)%Z with (Z.succ b) by lia. exact Hd2. }
  (* x < 2^(a-b+1) and 2^(a-b-1) < x *)
  assert (Hup : x < 2 ^ (a - b + 1)).
  { apply (Qmult_lt_r _ _ (inject_Z (Zpos (Qden x))) Hdpos).
    rewrite Hxd. eapply Qlt_le_trans; [exact Hn2q |].
    replace (a + 1)%Z with ((a - b + 1) + b)%Z by ring. rewrite pow2_plus.
    apply Qmult_le_l; [apply pow2_pos | exact Hd1q]. }
  assert (Hlo : 2 ^ (a - b - 1) < x).
  { apply (Qmult_lt_r _ _ (inject_Z (Zpos (Qden x))) Hdpos).
    rewrite Hxd. eapply Qlt_le_trans; [| exact Hn1q].
    replace a with ((a - b - 1) + (b + 1))%Z at 2 by ring. rewrite pow2_plus.
    apply Qmult_lt_l; [apply pow2_pos | exact Hd2q]. }
  unfold Binary64.ilog2. fold a b.
  destruct (Qle_bool (2 ^ (a - b)) x) eqn:Hc.
  - apply Qle_bool_iff in Hc. split; [exact Hc | exact Hup].
  - split; [apply Qlt_le_weak, Hlo |].
    replace (a - b - 1 + 1)%Z with (a - b)%Z by ring.
    apply Qnot_le_lt. intros Hle. apply Qle_bool_iff in Hle. congruence.
Qed.

Lemma ilog2_mono (x y : Q) : 0 < x -> x <= y -> (Binary64.ilog2 x <= Binary64.ilog2 y)%Z.
Proof.
  intros Hx Hxy. assert (Hy : 0 < y) by lra.
  destruct (ilog2_spec x Hx) as [Hx1 _]. destruct (ilog2_spec y Hy) as [_ Hy2].
  destruct (Z_le_gt_dec (Binary64.ilog2 x) (Binary64.ilog2 y)) as [H | H]; [exact H | exfalso].
  assert (2 ^ (Binary64.ilog2 y + 1) <= 2 ^ Binary64.ilog2 x) by (apply pow2_le; lia). lra.
Qed.

(** Rounding of a positive real *)

Lemma round_pos_unfold (x : Q) :
  Binary64.round_pos x = inject_Z (Binary64.rne (x / 2 ^ Binary64.quantum x)) * 2 ^ Binary64.quantum x.
Proof. reflexivity. Qed.

Lemma round_pos_nonneg (x : Q) : 0 <= x -> 0 <= Binary64.round_pos x.
Proof.
  intros Hx. rewrite round_pos_unfold. apply Qmult_le_0_compat.
  - change 0 with (inject_Z 0). rewrite <- Zle_Qle. apply rne_nonneg.
    unfold Qdiv. apply Qmult_le_0_compat; [exact Hx |].
    apply Qlt_le_weak, Qinv_lt_0_compat, pow2_pos.
  - apply Qlt_le_weak, pow2_pos.
Qed.

(** A power of two on the grid of [x] bounds the rounded value as it
    bounds [x]. *)
Lemma round_pos_le_pow2 (x : Q) (e : Z) :
  (Binary64.quantum x <= e)%Z -> x <= 2 ^ e -> Binary64.round_pos x <= 2 ^ e.
Proof.
  intros Hk Hx. rewrite round_pos_unfold. set (k := Binary64.quantum x) in *.
  assert (Hr : (Binary64.rne (x / 2 ^ k) <= 2 ^ (e - k))%Z).
  { rewrite <- (rne_Z (2 ^ (e - k))). apply rne_mono.
    rewrite pow2_inject by lia. rewrite <- pow2_quot.
    apply div_pow2_le; assumption. }
  rewrite Zle_Qle in Hr. rewrite pow2_inject in Hr by lia.
  rewrite (pow2_split e k).
  apply Qmult_le_compat_r; [exact Hr | apply Qlt_le_weak, pow2_pos].
Qed.

Lemma round_pos_ge_pow2 (x : Q) (e : Z) :
  (Binary64.quantum x <= e)%Z -> 2 ^ e <= x -> 2 ^ e <= Binary64.round_pos x.
Proof.
  intros Hk Hx. rewrite round_pos_unfold. set (k := Binary64.quantum x) in *.
  assert (Hr : (2 ^ (e - k) <= Binary64.rne (x / 2 ^ k))%Z).
  { rewrite <- (rne_Z (2 ^ (e - k))) at 1. apply rne_mono.
    rewrite pow2_inject by lia. rewrite <- pow2_quot.
    apply div_pow2_le; assumption. }
  rewrite Zle_Qle in Hr. rewrite pow2_inject in Hr by lia.
  rewrite (pow2_split e k).
  apply Qmult_le_compat_r; [exact Hr | apply Qlt_le_weak, pow2_pos].
Qed.

Lemma round_pos_mono (x y : Q) : 0 < x -> x <= y -> Binary64.round_pos x <= Binary64.round_pos y.
Proof.
  intros Hx Hxy. assert (Hy : 0 < y) by lra.
  pose proof (ilog2_mono x y Hx Hxy) as He.
  destruct (ilog2_spec x Hx) as [_ Hx2]. destruct (ilog2_spec y Hy) as [Hy1 _].
  destruct (Z.eq_dec (Binary64.quantum x) (Binary64.quantum y)) as [Heq | Hne].
  - rewrite !round_pos_unfold, Heq.
    apply Qmult_le_compat_r; [| apply Qlt_le_weak, pow2_pos].
    rewrite <- Zle_Qle. apply rne_mono. apply div_pow2_le; assumption.
  - assert (Hlt : (Binary64.quantum x < Binary64.quantum y)%Z) by (unfold Binary64.quantum in *; lia).
    assert (Hky : Binary64.quantum y = (Binary64.ilog2 y - 52)%Z) by (unfold Binary64.quantum in *; lia).
    assert (Hex : (Binary64.ilog2 x + 1 <= Binary64.ilog2 y)%Z) by (unfold Binary64.quantum in *; lia).
    apply Qle_trans with (2 ^ Binary64.ilog2 y).
    + apply round_pos_le_pow2; [lia |].
      apply Qle_trans with (2 ^ (Binary64.ilog2 x + 1)); [lra | apply pow2_le; exact Hex].
    + apply round_pos_ge_pow2; [lia | exact Hy1].
Qed.

(** Rounding of any real *)

Lemma round_real_pos (x : Q) : 0 < x -> Binary64.round_real x = Binary64.round_pos x.
Proof.
  intros Hx. pose proof (Qnum_pos x Hx). unfold Binary64.round_real.
  destruct (Qnum x); [lia | reflexivity | lia].
Qed.

Lemma round_real_neg (x : Q) : x < 0 -> Binary64.round_real x = - Binary64.round_pos (- x).
Proof.
  intros Hx. unfold Binary64.round_real. destruct x as [[|n|n] d]; simpl;
    [discriminate Hx | discriminate Hx | reflexivity].
Qed.

Lemma round_real_zero (x : Q) : x == 0 -> Binary64.round_real x = 0.
Proof.
  intros Hx. unfold Binary64.round_real. destruct x as [[|n|n] d]; simpl;
    [reflexivity | discriminate Hx | discriminate Hx].
Qed.

Lemma round_real_mono (x y : Q) : x <= y -> Binary64.round_real x <= Binary64.round_real y.
Proof.
  intros Hxy.
  destruct (Q_dec x 0) as [[Hx | Hx] | Hx]; destruct (Q_dec y 0) as [[Hy | Hy] | Hy].
  - rewrite (round_real_neg x Hx), (round_real_neg y Hy).
    apply Qopp_le_compat. apply round_pos_mono; lra.
  - rewrite (round_real_neg x Hx), (round_real_pos y Hy).
    pose proof (round_pos_nonneg (- x)). pose proof (round_pos_nonneg y). lra.
  - rewrite (round_real_neg x Hx), (round_real_zero y Hy).
    pose proof (round_pos_nonneg (- x)). lra.
  - lra.
  - rewrite (round_real_pos x Hx), (round_real_pos y Hy).
    apply round_pos_mono; assumption.
  - lra.
  - lra.
  - rewrite (round_real_zero x Hx), (round_real_pos y Hy).
    apply round_pos_nonneg. lra.
  - rewrite (round_real_zero x Hx), (round_real_zero y Hy). lra.
Qed.

Lemma round_real_comp (x y : Q) : x == y -> Binary64.round_real x == Binary64.round_real y.
Proof. intros H. apply Qle_antisym; apply round_real_mono; lra. Qed.

(** Integers up to [2^53] are doubles. *)
Lemma round_pos_int (z : Z) :
  (0 < z < 2 ^ 53)%Z -> Binary64.round_pos (inject_Z z) == inject_Z z.
Proof.
  intros Hz. assert (Hq : 0 < inject_Z z) by (change 0 with (inject_Z 0); rewrite <- Zlt_Qlt; lia).
  destruct (ilog2_spec _ Hq) as [He _].
  assert (Hk : (Binary64.quantum (inject_Z z) <= 0)%Z).
  { unfold Binary64.quantum.
    destruct (Z_le_gt_dec (Binary64.ilog2 (inject_Z z)) 52) as [H | H]; [lia | exfalso].
    assert (2 ^ 53 <= 2 ^ Binary64.ilog2 (inject_Z z)) by (apply pow2_le; lia).
    assert (inject_Z z < 2 ^ 53).
    { rewrite <- pow2_inject by lia. rewrite <- Zlt_Qlt. lia. }
    lra. }
  rewrite round_pos_unfold. set (k := Binary64.quantum (inject_Z z)) in *.
  assert (Hs : inject_Z z / 2 ^ k == inject_Z (z * 2 ^ (- k))).
  { rewrite inject_Z_mult, pow2_inject by lia.
    rewrite Qpower_opp. field. pose proof (pow2_pos k). lra. }
  rewrite (rne_comp _ _ Hs), rne_Z, inject_Z_mult, pow2_inject by lia.
  rewrite Qpower_opp. field. pose proof (pow2_pos k). lra.
Qed.

Lemma round_real_int (z : Z) :
  (- 2 ^ 53 < z < 2 ^ 53)%Z -> Binary64.round_real (inject_Z z) == inject_Z z.
Proof.
  intros Hz. destruct (Z.lt_trichotomy z 0) as [Hneg | [-> | Hpos]].
  - rewrite round_real_neg by (change 0 with (inject_Z 0); rewrite <- Zlt_Qlt; lia).
    rewrite <- inject_Z_opp, round_pos_int by lia.
    rewrite inject_Z_opp. ring.
  - reflexivity.
  - rewrite round_real_pos by (change 0 with (inject_Z 0); rewrite <- Zlt_Qlt; lia).
    apply round_pos_int. lia.
Qed.

End Binary64Properties.

(** ** Helper lemmas on values *)

Lemma or_dict (m : gmap string pyval) : Py.or_ (VDict m) (VDict ∅) = VDict m.
Proof.
  unfold Py.or_; simpl.
  destruct (Nat.eqb_spec (size m) 0) as [Hsz | Hsz]; simpl; [| done].
  apply map_size_empty_iff in Hsz. by rewrite Hsz.
Qed.

Lemma or_falsy (v w : pyval) : Py.truthy v = false → Py.or_ v w = w.
Proof. unfold Py.or_. by intros ->. Qed.

Lemma valid_files_dict (d : SessionData) :
  valid d → ∃ m, files d = VDict m.
Proof. intros [l t u m]. by eexists. Qed.

Lemma python_session_valid : valid python_session.
Proof. apply (valid_intro "python" 2 (Q2Qc (1000 # 1)) {["a.py" := "x"]}). Defined.

(** ** binary64 rounding on the values *)

Lemma round_mono (x y : Qc) :
  (x ≤ y)%Qc → Binary64.le (Binary64.round x) (Binary64.round y).
Proof.
  intros Hxy. pose proof (round_real_mono x y Hxy) as Hr.
  pose proof (pow2_pos 1024) as HM.
  unfold Binary64.round, Binary64.le.
  set (M := (2 ^ 1024)%Q) in *.
  set (rx := Binary64.round_real x) in *. set (ry := Binary64.round_real y) in *.
  destruct (Qle_bool M rx) eqn:Ex1; destruct (Qle_bool M ry) eqn:Ey1;
    try destruct (Qle_bool rx (- M)) eqn:Ex2;
    try destruct (Qle_bool ry (- M)) eqn:Ey2; try done;
    repeat match goal with
           | H : Qle_bool _ _ = true |- _ => apply Qle_bool_iff in H
           | H : Qle_bool ?a ?b = false |- _ =>
               assert (¬ (a <= b)%Q) by (rewrite <- Qle_bool_iff; congruence);
               clear H
           end;
    try lra.
  unfold Qcle; simpl. rewrite !Qred_correct. exact Hr.
Qed.

Lemma gt_mono (x y : xfloat) (T : Qc) :
  Binary64.le x y → Binary64.gt x T = true → Binary64.gt y T = true.
Proof.
  destruct x as [a| |], y as [b| |]; simpl; try done.
  intros Hab Ha. apply bool_decide_eq_true in Ha. apply bool_decide_eq_true.
  by apply Qclt_le_trans with a.
Qed.

Lemma gt_le_false (x : xfloat) (T : Qc) :
  Binary64.le x (Fin T) → Binary64.gt x T = false.
Proof.
  destruct x as [a| |]; simpl; try done.
  intros Ha. apply bool_decide_eq_false. by apply Qcle_not_lt.
Qed.

Lemma gt_ge_true (x : xfloat) (f T : Qc) :
  Binary64.le (Fin f) x → (T < f)%Qc → Binary64.gt x T = true.
Proof.
  destruct x as [a| |]; simpl; try done.
  intros Ha HT. apply bool_decide_eq_true. by apply Qclt_le_trans with f.
Qed.

(** A real within the range that rounding leaves as it is, is a binary64
    number. *)
Lemma exact_intro (x : Qc) :
  (Binary64.round_real x == x)%Q →
  (- 2 ^ 1024 < x)%Q → (x < 2 ^ 1024)%Q → Binary64.exact x.
Proof.
  intros Hr Hlo Hhi. unfold Binary64.exact, Binary64.round.
  set (r := Binary64.round_real x) in *. set (M := (2 ^ 1024)%Q) in *.
  destruct (Qle_bool M r) eqn:E1.
  { apply Qle_bool_iff in E1. lra. }
  destruct (Qle_bool r (- M)) eqn:E2.
  { apply Qle_bool_iff in E2. lra. }
  f_equal. apply Qc_is_canon. simpl. by rewrite Qred_correct.
Qed.

Lemma round_zero : Binary64.round 0%Qc = Fin 0%Qc.
Proof. reflexivity. Qed.

Lemma Qc_of_Z_lt (a b : Z) : a < b → (Qc_of_Z a < Qc_of_Z b)%Qc.
Proof.
  intros Hab. unfold Qclt. change (Qc_of_Z a : Q) with (inject_Z a).
  change (Qc_of_Z b : Q) with (inject_Z b). by rewrite <- Zlt_Qlt.
Qed.

(** An integer from [2^1024] on rounds to infinity. *)
Lemma round_huge (z : Z) : 2 ^ 1024 ≤ z → Binary64.round (Qc_of_Z z) = PInf.
Proof.
  intros Hz. unfold Binary64.round.
  change (Qc_of_Z z : Q) with (inject_Z z).
  assert (Hq : (2 ^ 1024 <= inject_Z z)%Q).
  { rewrite <- (pow2_inject 1024) by lia. by rewrite <- Zle_Qle. }
  pose proof (pow2_pos 1024) as HM.
  assert (Hr : (2 ^ 1024 <= Binary64.round_real (inject_Z z))%Q).
  { apply Qle_trans with (Binary64.round_real (2 ^ 1024)%Q).
    - rewrite round_real_pos by exact HM.
      apply round_pos_ge_pow2; [by vm_compute | apply Qle_refl].
    - by apply round_real_mono. }
  apply Qle_bool_iff in Hr. by rewrite Hr.
Qed.

(** Every integer below [2^53] in size is a binary64 number. *)
Lemma round_int (z : Z) :
  - 2 ^ 53 < z < 2 ^ 53 → Binary64.exact (Qc_of_Z z).
Proof.
  intros Hz. pose proof (round_real_int z Hz) as Hr.
  unfold Binary64.exact, Binary64.round.
  change (Qc_of_Z z : Q) with (inject_Z z) in *.
  set (r := Binary64.round_real (inject_Z z)) in *.
  assert (Hlo : (- inject_Z (2 ^ 53) < inject_Z z)%Q).
  { rewrite <- inject_Z_opp, <- Zlt_Qlt. lia. }
  assert (Hhi : (inject_Z z < inject_Z (2 ^ 53))%Q) by (rewrite <- Zlt_Qlt; lia).
  rewrite (pow2_inject 53) in Hlo, Hhi by lia.
  pose proof (pow2_lt 53 1024 eq_refl) as HM.
  set (M := (2 ^ 1024)%Q) in *. set (B := (2 ^ 53)%Q) in *.
  destruct (Qle_bool M r) eqn:E1.
  { apply Qle_bool_iff in E1. lra. }
  destruct (Qle_bool r (- M)) eqn:E2.
  { apply Qle_bool_iff in E2. lra. }
  f_equal. apply Qc_is_canon. simpl. by rewrite Qred_correct.
Qed.

(** ** The expiration check *)

Lemma expired_numbers (now t0 T : Qc) (d : SessionData) :
  Py.to_float (last_used d) = Ok t0 →
  Py.as_number (ttl d) = Some T →
  SessionData.expired now d
    = Ok (Binary64.gt (Binary64.round (now - t0)) T).
Proof.
  intros Hu Ht. unfold SessionData.expired, Py.float_sub, Py.float_gt.
  rewrite Hu. cbn. by rewrite Ht.
Qed.

Lemma to_float_number (v : pyval) (q : Qc) :
  Py.as_number v = Some q →
  (∃ y, Py.to_float v = Ok y) ∨ Py.to_float v = Raise OverflowError.
Proof.
  destruct v as [| b | z | u | | |]; simpl; try done; intros _;
    [by eauto | | by eauto].
  destruct (Binary64.round (Qc_of_Z z)); by eauto.
Qed.

Lemma expired_valid (now : Qc) (d : SessionData) :
  valid d → ∃ b, SessionData.expired now d = Ok b.
Proof.
  intros [l t u m]. eexists. by apply (expired_numbers now u (Qc_of_Z t)).
Qed.

(** C2, as the code has it: a record is expired exactly when the binary64
    difference [now - last_used], rounded to nearest, exceeds [ttl]; where
    that difference is itself a binary64 number this is [now - last_used >
    ttl].  With [last_used = t0] and a [ttl = T] that is a binary64 number,
    the check answers no at every time [t0 + T - ε], [ε >= 0], and yes at
    a time [t0 + T + ε] whenever a binary64 number lies above [T] and not
    above [T + ε]; its answer depends on the clock reading, [last_used]
    and [ttl] only, and it returns nothing but that answer. *)
Theorem expired_iff_rounded_idle_exceeds_ttl (d : SessionData) (t0 T : Qc) :
  Py.to_float (last_used d) = Ok t0 →
  Py.as_number (ttl d) = Some T →
  (∀ now, SessionData.expired now d
            = Ok (Binary64.gt (Binary64.round (now - t0)) T)) ∧
  (∀ now, Binary64.exact (now - t0) →
          ∃ b, SessionData.expired now d = Ok b ∧
               (b = true ↔ (now - t0 > T)%Qc)) ∧
  (Binary64.exact T →
   ∀ ε, (0 ≤ ε)%Qc → SessionData.expired (t0 + T - ε) d = Ok false) ∧
  (∀ ε f, Binary64.exact f → (T < f)%Qc → (f ≤ T + ε)%Qc →
          SessionData.expired (t0 + T + ε) d = Ok true) ∧
  (∀ now d', last_used d' = last_used d → ttl d' = ttl d →
             SessionData.expired now d' = SessionData.expired now d).
Proof.
  intros Hu Ht. split_and!.
  - intros now. by apply expired_numbers.
  - intros now Hex. eexists. split; [by apply expired_numbers |].
    rewrite Hex. simpl. by rewrite bool_decide_eq_true.
  - intros HT ε Hε. rewrite (expired_numbers _ t0 T) by done. f_equal.
    apply gt_le_false. rewrite <- HT. apply round_mono.
    replace (t0 + T - ε - t0)%Qc with (T - ε)%Qc by ring.
    apply (Qcplus_le_mono_r _ _ ε).
    replace (T - ε + ε)%Qc with (T + 0)%Qc by ring.
    by apply Qcplus_le_mono_l.
  - intros ε f Hf HTf Hfε. rewrite (expired_numbers _ t0 T) by done. f_equal.
    apply (gt_ge_true _ f); [| done]. rewrite <- Hf. apply round_mono.
    by replace (t0 + T + ε - t0)%Qc with (T + ε)%Qc by ring.
  - intros now d' Hu' Ht'. unfold SessionData.expired. by rewrite Hu', Ht'.
Qed.

Lemma expired_iff_rounded_idle_exceeds_ttl_witness :
  SessionData.expired (Q2Qc (1000 # 1) + Qc_of_Z 2 - Q2Qc (1 # 2)) python_session
    = Ok false ∧
  SessionData.expired (Q2Qc (1000 # 1) + Qc_of_Z 2 + Q2Qc (1 # 2)) python_session
    = Ok true.
Proof.
  destruct (expired_iff_rounded_idle_exceeds_ttl python_session
              (Q2Qc (1000 # 1)) (Qc_of_Z 2) eq_refl eq_refl)
    as (_ & _ & Hbefore & Hafter & _).
  split.
  - apply Hbefore; [apply round_int; lia | discriminate].
  - apply (Hafter (Q2Qc (1 # 2)) (Q2Qc (5 # 2)));
      [apply exact_intro; reflexivity | reflexivity | discriminate].
Defined.

(** The claim of C2 fails one second and [2^-53] after [last_used]: the
    difference [now - last_used] is above [ttl = 1], but it rounds to [1]
    and the record is not expired. *)
Lemma expired_false_just_after_ttl :
  (Q2Qc (4503599627370497 # 4503599627370496)
   - Q2Qc (1 # 9007199254740992) > Qc_of_Z 1)%Qc ∧
  SessionData.expired (Q2Qc (4503599627370497 # 4503599627370496)) early_session
    = Ok false.
Proof. split; reflexivity. Qed.

(** ** Serialisation *)

Section SerialisationProperties.

Context {payload : Type} `{Json payload}.
Implicit Types (p : payload) (m : gmap string pyval) (d r : SessionData).

(** What [loads] makes of a JSON object that has the four keys. *)
Lemma loads_object now p m (l t u f : pyval) :
  json_loads p = Ok (VDict m) →
  m !! "language" = Some l → m !! "ttl" = Some t →
  m !! "last_used" = Some u → m !! "files" = Some f →
  SessionData.loads now p
    = Ok {| language := l; ttl := t; last_used := u;
            files := Py.or_ f (VDict ∅) |}.
Proof.
  intros Hp Hl Ht Hu Hf. unfold SessionData.loads. rewrite Hp; cbn.
  rewrite Hl; cbn. rewrite Ht; cbn. rewrite Hf; cbn. by rewrite Hu.
Qed.

(** [loads] only returns a record when the payload is a JSON object with
    the four keys. *)
Lemma loads_Ok_inv now p r :
  SessionData.loads now p = Ok r →
  ∃ m l t u f,
    json_loads p = Ok (VDict m) ∧
    m !! "language" = Some l ∧ m !! "ttl" = Some t ∧
    m !! "last_used" = Some u ∧ m !! "files" = Some f ∧
    r = {| language := l; ttl := t; last_used := u;
           files := Py.or_ f (VDict ∅) |}.
Proof.
  unfold SessionData.loads.
  destruct (json_loads p) as [[| | | | | |m]|] eqn:Hp; cbn; try done.
  destruct (m !! "language") as [l|] eqn:Hl; cbn; [| done].
  destruct (m !! "ttl") as [t|] eqn:Ht; cbn; [| done].
  destruct (m !! "files") as [f|] eqn:Hf; cbn; [| done].
  destruct (m !! "last_used") as [u|] eqn:Hu; cbn; [| done].
  intros [= <-]. by exists m, l, t, u, f.
Qed.

Lemma loads_not_json now p (e : exn) :
  json_loads p = Raise e → SessionData.loads now p = Raise e.
Proof. intros Hp. unfold SessionData.loads. by rewrite Hp. Qed.

Lemma loads_not_object now p (v : pyval) :
  json_loads p = Ok v → (∀ m, v ≠ VDict m) →
  SessionData.loads now p = Raise TypeError.
Proof.
  intros Hp Hv. unfold SessionData.loads. rewrite Hp.
  destruct v; try done. by destruct (Hv m).
Qed.

Lemma loads_missing_key now p m (k : string) :
  json_loads p = Ok (VDict m) → k ∈ required_keys → m !! k = None →
  ∃ k', k' ∈ required_keys ∧ m !! k' = None ∧
        SessionData.loads now p = Raise (KeyError k').
Proof.
  intros Hp Hk Hm. unfold SessionData.loads. rewrite Hp; cbn.
  destruct (m !! "language") as [l|] eqn:Hl; cbn;
    [| exists "language"; split_and!; [in_required_keys | done | done]].
  destruct (m !! "ttl") as [t|] eqn:Ht; cbn;
    [| exists "ttl"; split_and!; [in_required_keys | done | done]].
  destruct (m !! "files") as [f|] eqn:Hf; cbn;
    [| exists "files"; split_and!; [in_required_keys | done | done]].
  destruct (m !! "last_used") as [u|] eqn:Hu; cbn;
    [| exists "last_used"; split_and!; [in_required_keys | done | done]].
  exfalso. unfold required_keys in Hk.
  rewrite !elem_of_cons, elem_of_nil in Hk.
  destruct Hk as [-> | [-> | [-> | [-> | []]]]]; congruence.
Qed.

Context `{!JsonLaws payload}.

Lemma loads_dumps now d :
  SessionData.loads now (SessionData.dumps d : payload)
    = Ok {| language := language d; ttl := ttl d; last_used := last_used d;
            files := Py.or_ (files d) (VDict ∅) |}.
Proof.
  unfold SessionData.dumps.
  by apply (loads_object now _ _ _ _ _ _ (json_loads_dumps _)).
Qed.

Lemma loads_dumps_dict now d m :
  files d = VDict m →
  SessionData.loads now (SessionData.dumps d : payload) = Ok d.
Proof.
  intros Hf. rewrite loads_dumps, Hf, or_dict. by destruct d; simplify_eq/=.
Qed.

End SerialisationProperties.

(** C3: for every valid record [R], [SessionData.loads(R.dumps())] is a
    record whose [language], [ttl], [last_used] and [files] equal those of
    [R], whatever the clock reads when it is rebuilt. *)
Theorem loads_dumps_roundtrip `{JsonLaws payload} (now : Qc) (R : SessionData) :
  valid R →
  ∃ R', SessionData.loads now (SessionData.dumps R : payload) = Ok R' ∧
        language R' = language R ∧ ttl R' = ttl R ∧
        last_used R' = last_used R ∧ files R' = files R.
Proof.
  intros HR. destruct (valid_files_dict R HR) as [m Hm].
  exists R. by rewrite (loads_dumps_dict now R m Hm).
Qed.

Lemma loads_dumps_roundtrip_witness :
  ∃ R', SessionData.loads 0%Qc (SessionData.dumps python_session : text) = Ok R' ∧
        language R' = language python_session ∧ ttl R' = ttl python_session ∧
        last_used R' = last_used python_session ∧
        files R' = files python_session.
Proof.
  apply (loads_dumps_roundtrip (payload := text) 0%Qc python_session),
    python_session_valid.
Defined.

(** C4, as the code has it: [loads] returns a record exactly when the
    payload is the text of a JSON object that has the four keys [language],
    [ttl], [last_used] and [files]; the record holds the values found under
    [language], [ttl] and [last_used] as they are and the one under [files]
    unless it is false, whatever their shape.  It raises when the payload
    is not JSON, is not an object or lacks one of the four keys, and then
    returns no record. *)
Theorem loads_requires_only_the_keys `{Json payload} (now : Qc) (p : payload) :
  (∀ r, SessionData.loads now p = Ok r ↔
        ∃ m l t u f,
          json_loads p = Ok (VDict m) ∧
          m !! "language" = Some l ∧ m !! "ttl" = Some t ∧
          m !! "last_used" = Some u ∧ m !! "files" = Some f ∧
          r = {| language := l; ttl := t; last_used := u;
                 files := Py.or_ f (VDict ∅) |}) ∧
  (∀ e, json_loads p = Raise e → SessionData.loads now p = Raise e) ∧
  (∀ v, json_loads p = Ok v → (∀ m, v ≠ VDict m) →
        SessionData.loads now p = Raise TypeError) ∧
  (∀ m k, json_loads p = Ok (VDict m) → k ∈ required_keys → m !! k = None →
          ∃ k', k' ∈ required_keys ∧ m !! k' = None ∧
                SessionData.loads now p = Raise (KeyError k')).
Proof.
  split_and!.
  - intros r. split; [apply loads_Ok_inv |].
    intros (m & l & t & u & f & Hp & Hl & Ht & Hu & Hf & ->).
    by apply (loads_object now p m).
  - apply loads_not_json.
  - apply loads_not_object.
  - intros m k. apply loads_missing_key.
Qed.

Lemma loads_requires_only_the_keys_witness :
  ∃ k', k' ∈ required_keys ∧ no_ttl_object !! k' = None ∧
        SessionData.loads 0%Qc (JsonText (VDict no_ttl_object))
          = Raise (KeyError k').
Proof.
  destruct (loads_requires_only_the_keys 0%Qc (JsonText (VDict no_ttl_object)))
    as (_ & _ & _ & H).
  apply (H no_ttl_object "ttl"); [reflexivity | | reflexivity].
  in_required_keys.
Defined.

(** The claim of C4 fails on the text of a JSON object whose four fields
    all have the wrong shape: [loads] returns a record holding them. *)
Lemma loads_accepts_wrong_shape :
  wire_shape misshapen_object = false ∧
  SessionData.loads 0%Qc (JsonText (VDict misshapen_object))
    = Ok {| language := VInt 5; ttl := VStr "soon"; last_used := VNone;
            files := VList [VInt 1] |}.
Proof. split; reflexivity. Qed.

(** C10: when the payload has the four keys and the value under [files] is
    null, or any other false value, [loads] succeeds and the record's
    [files] is the empty mapping. *)
Theorem loads_null_files `{Json payload} (now : Qc) (p : payload)
    (m : gmap string pyval) (l t u f : pyval) :
  json_loads p = Ok (VDict m) →
  m !! "language" = Some l → m !! "ttl" = Some t →
  m !! "last_used" = Some u → m !! "files" = Some f →
  f = VNone ∨ Py.truthy f = false →
  SessionData.loads now p
    = Ok {| language := l; ttl := t; last_used := u; files := VDict ∅ |}.
Proof.
  intros Hp Hl Ht Hu Hf Hfalse.
  rewrite (loads_object now p m l t u f) by done.
  rewrite or_falsy; [done |]. by destruct Hfalse as [-> | ->].
Qed.

Lemma loads_null_files_witness :
  SessionData.loads 0%Qc (JsonText (VDict null_files_object))
    = Ok {| language := VStr "python"; ttl := VInt 2;
            last_used := VFloat (Q2Qc (1000 # 1)); files := VDict ∅ |}.
Proof.
  apply (loads_null_files 0%Qc (JsonText (VDict null_files_object))
           null_files_object _ _ _ VNone);
    [reflexivity | reflexivity | reflexivity | reflexivity | reflexivity
    | left; reflexivity].
Defined.

(** ** The in-memory store *)

Section MemoryStore.

Implicit Types (s : gmap string SessionData) (d : SessionData).

Lemma Memory_get_absent now sid s :
  s !! sid = None → Memory.get now sid s = Ok (None, s).
Proof. unfold Memory.get. by intros ->. Qed.

Lemma Memory_get_fresh now sid s d :
  s !! sid = Some d → SessionData.expired now d = Ok false →
  Memory.get now sid s = Ok (Some d, s).
Proof. unfold Memory.get. by intros -> ->. Qed.

Lemma Memory_get_expired now sid s d :
  s !! sid = Some d → SessionData.expired now d = Ok true →
  Memory.get now sid s = Ok (None, delete sid s).
Proof. unfold Memory.get. by intros -> ->. Qed.

Lemma Memory_get_Some_inv now sid s d s' :
  Memory.get now sid s = Ok (Some d, s') →
  s !! sid = Some d ∧ SessionData.expired now d = Ok false ∧ s' = s.
Proof.
  unfold Memory.get. destruct (s !! sid) as [d0|]; [| done].
  destruct (SessionData.expired now d0) as [[|]|e] eqn:He; simpl;
    [done | | done].
  by intros [= <- <-].
Qed.

Lemma Memory_get_after_save now sid s d d' s' :
  Memory.get now sid (<[sid := d]> s) = Ok (Some d', s') → d' = d.
Proof.
  intros (Hl & _ & _)%Memory_get_Some_inv.
  rewrite lookup_insert_eq in Hl. congruence.
Qed.

Lemma Memory_get_valid now sid s d :
  s !! sid = Some d → valid d → ∃ r s', Memory.get now sid s = Ok (r, s').
Proof.
  intros Hs [[|] He]%(expired_valid now).
  - eexists _, _. by apply (Memory_get_expired now sid s d).
  - eexists _, _. by apply (Memory_get_fresh now sid s d).
Qed.

End MemoryStore.

(** ** The Redis-backed store *)

Section RedisStore.

Context {payload : Type} `{Json payload} `{RedisRules}.
Implicit Types (ks : gmap string (entry payload)) (d : SessionData) (p : payload).

Lemma RedisClient_get_deleted now k ks :
  RedisClient.get now k (RedisClient.delete k ks) = None.
Proof.
  unfold RedisClient.get, RedisClient.delete. by rewrite lookup_delete_eq.
Qed.

Lemma RedisClient_get_inserted now k ks e :
  RedisClient.get now k (<[k := e]> ks)
    = if RedisClient.live now e then Some (value e) else None.
Proof. unfold RedisClient.get. by rewrite lookup_insert_eq. Qed.

Lemma Redis_get_absent now sid ks :
  RedisClient.get now (Redis._key sid) ks = None →
  Redis.get now sid ks = Ok (None, ks).
Proof. unfold Redis.get. by intros ->. Qed.

Lemma Redis_get_fresh now sid ks p d :
  RedisClient.get now (Redis._key sid) ks = Some p →
  SessionData.loads now p = Ok d →
  SessionData.expired now d = Ok false →
  Redis.get now sid ks = Ok (Some d, ks).
Proof. unfold Redis.get. intros -> Hp He. rewrite Hp; simpl. by rewrite He. Qed.

Lemma Redis_get_expired now sid ks p d :
  RedisClient.get now (Redis._key sid) ks = Some p →
  SessionData.loads now p = Ok d →
  SessionData.expired now d = Ok true →
  Redis.get now sid ks = Ok (None, RedisClient.delete (Redis._key sid) ks).
Proof. unfold Redis.get. intros -> Hp He. rewrite Hp; simpl. by rewrite He. Qed.

Lemma Redis_get_Some_inv now sid ks d ks' :
  Redis.get now sid ks = Ok (Some d, ks') →
  ∃ p, RedisClient.get now (Redis._key sid) ks = Some p ∧
       SessionData.loads now p = Ok d ∧
       SessionData.expired now d = Ok false ∧ ks' = ks.
Proof.
  unfold Redis.get.
  destruct (RedisClient.get now (Redis._key sid) ks) as [p|]; [| done].
  destruct (SessionData.loads now p) as [d0|e] eqn:Hp; simpl; [| done].
  destruct (SessionData.expired now d0) as [[|]|e] eqn:He; simpl;
    [done | | done].
  intros [= <- <-]. by exists p.
Qed.

Lemma RedisClient_set_int now k p z ks :
  takes_ex now z = true →
  RedisClient.set now k p (VInt z) ks
    = Ok (<[k := {| value := p; expire_at := Some (now + Qc_of_Z z)%Qc |}]> ks).
Proof. intros Hz. unfold RedisClient.set. cbn. by rewrite Hz. Qed.

Lemma RedisClient_set_refused now k p z ks :
  takes_ex now z = false →
  RedisClient.set now k p (VInt z) ks = Raise ResponseError.
Proof. intros Hz. unfold RedisClient.set. cbn. by rewrite Hz. Qed.

Lemma RedisClient_set_Ok_inv now k p ex ks ks' :
  RedisClient.set now k p ex ks = Ok ks' →
  ∃ q, ks' = <[k := {| value := p; expire_at := q |}]> ks.
Proof.
  unfold RedisClient.set.
  destruct (match ex with
            | VNone => Ok None
            | VInt z => Ok (Some z)
            | _ => ex_of_other ex
            end) as [[z|]|e]; cbn; [| | done].
  - destruct (takes_ex now z); [| done]. intros [= <-]. by eexists.
  - intros [= <-]. by eexists.
Qed.

Lemma Redis_save_int now sid d z ks :
  ttl d = VInt z → takes_ex now z = true →
  Redis.save now sid d ks
    = Ok (tt, <[Redis._key sid :=
                  {| value := SessionData.dumps d;
                     expire_at := Some (now + Qc_of_Z z)%Qc |}]> ks).
Proof.
  intros Ht Hz. unfold Redis.save. rewrite Ht.
  by rewrite RedisClient_set_int.
Qed.

Lemma Redis_save_refused now sid d z ks :
  ttl d = VInt z → takes_ex now z = false →
  Redis.save now sid d ks = Raise ResponseError.
Proof.
  intros Ht Hz. unfold Redis.save. rewrite Ht.
  by rewrite RedisClient_set_refused.
Qed.

Lemma Redis_save_Ok_inv now sid d ks ks' :
  Redis.save now sid d ks = Ok (tt, ks') →
  ∃ q, ks' = <[Redis._key sid :=
                 {| value := SessionData.dumps d; expire_at := q |}]> ks.
Proof.
  unfold Redis.save.
  destruct (RedisClient.set now (Redis._key sid) (SessionData.dumps d)
              (ttl d) ks) as [ks1|e] eqn:Hset; cbn; [| done].
  intros [= <-]. by apply (RedisClient_set_Ok_inv now _ _ (ttl d)).
Qed.

Lemma Redis_save_int_Ok_inv now sid d z ks ks' :
  ttl d = VInt z → Redis.save now sid d ks = Ok (tt, ks') →
  takes_ex now z = true ∧
  ks' = <[Redis._key sid :=
            {| value := SessionData.dumps d;
               expire_at := Some (now + Qc_of_Z z)%Qc |}]> ks.
Proof.
  intros Ht Hsave. destruct (takes_ex now z) eqn:Hz.
  - rewrite (Redis_save_int now sid d z ks Ht Hz) in Hsave.
    by injection Hsave as <-.
  - by rewrite (Redis_save_refused now sid d z ks Ht Hz) in Hsave.
Qed.

Context `{!JsonLaws payload}.

Lemma Redis_get_after_insert now sid ks q d d' ks' :
  Redis.get now sid
      (<[Redis._key sid := {| value := SessionData.dumps d;
                               expire_at := q |}]> ks)
    = Ok (Some d', ks') →
  d' = {| language := language d; ttl := ttl d; last_used := last_used d;
          files := Py.or_ (files d) (VDict ∅) |}.
Proof.
  intros (p & Hp & Hl & _ & _)%Redis_get_Some_inv.
  rewrite RedisClient_get_inserted in Hp. simpl in Hp.
  destruct (RedisClient.live _ _); [| done].
  injection Hp as <-. rewrite loads_dumps in Hl. congruence.
Qed.

Lemma Redis_get_valid now sid ks d :
  RedisClient.get now (Redis._key sid) ks = Some (SessionData.dumps d) →
  valid d → ∃ r ks', Redis.get now sid ks = Ok (r, ks').
Proof.
  intros Hp Hd. destruct (valid_files_dict d Hd) as [m Hm].
  pose proof (loads_dumps_dict now d m Hm) as Hl.
  destruct (expired_valid now d Hd) as [[|] He].
  - eexists _, _. by apply (Redis_get_expired now sid ks (SessionData.dumps d) d).
  - eexists _, _. by apply (Redis_get_fresh now sid ks (SessionData.dumps d) d).
Qed.

End RedisStore.

(** ** Reading: lazy expiry *)

(** C1: in both stores [get] returns the stored record when there is one
    and it is not expired, and [None] when there is none or it is expired;
    an expired record is deleted before [None] is returned, so [get] never
    returns an expired record and the backend no longer holds it
    afterwards; with a valid record stored, [get] does not raise.  For the
    Redis store the stored record is what [loads] reads from the value
    under the session's key. *)
Theorem get_returns_live_record_and_drops_expired `{Json payload}
    (now : Qc) (sid : string) :
  (∀ s : gmap string SessionData,
     (s !! sid = None → Memory.get now sid s = Ok (None, s)) ∧
     (∀ d, s !! sid = Some d → SessionData.expired now d = Ok false →
           Memory.get now sid s = Ok (Some d, s)) ∧
     (∀ d, s !! sid = Some d → SessionData.expired now d = Ok true →
           ∃ s', Memory.get now sid s = Ok (None, s') ∧ s' !! sid = None ∧
                 ∀ now', Memory.get now' sid s' = Ok (None, s')) ∧
     (∀ d s', Memory.get now sid s = Ok (Some d, s') →
              SessionData.expired now d = Ok false) ∧
     (∀ d, s !! sid = Some d → valid d →
           ∃ r s', Memory.get now sid s = Ok (r, s'))) ∧
  (∀ ks : gmap string (entry payload),
     (RedisClient.get now (Redis._key sid) ks = None →
      Redis.get now sid ks = Ok (None, ks)) ∧
     (∀ p d, RedisClient.get now (Redis._key sid) ks = Some p →
             SessionData.loads now p = Ok d →
             SessionData.expired now d = Ok false →
             Redis.get now sid ks = Ok (Some d, ks)) ∧
     (∀ p d, RedisClient.get now (Redis._key sid) ks = Some p →
             SessionData.loads now p = Ok d →
             SessionData.expired now d = Ok true →
             ∃ ks', Redis.get now sid ks = Ok (None, ks') ∧
                    ks' !! Redis._key sid = None ∧
                    ∀ now', RedisClient.get now' (Redis._key sid) ks' = None ∧
                            Redis.get now' sid ks' = Ok (None, ks')) ∧
     (∀ d ks', Redis.get now sid ks = Ok (Some d, ks') →
               SessionData.expired now d = Ok false) ∧
     (JsonLaws payload →
      ∀ d, RedisClient.get now (Redis._key sid) ks
             = Some (SessionData.dumps d) →
           valid d → ∃ r ks', Redis.get now sid ks = Ok (r, ks'))).
Proof.
  split.
  - intros s. split_and!.
    + apply Memory_get_absent.
    + apply Memory_get_fresh.
    + intros d Hs He. exists (delete sid s). split_and!.
      * by apply (Memory_get_expired now sid s d).
      * apply lookup_delete_eq.
      * intros now'. apply Memory_get_absent, lookup_delete_eq.
    + by intros d s' (_ & He & _)%Memory_get_Some_inv.
    + apply Memory_get_valid.
  - intros ks. split_and!.
    + apply Redis_get_absent.
    + apply Redis_get_fresh.
    + intros p d Hp Hl He.
      exists (RedisClient.delete (Redis._key sid) ks). split_and!.
      * by apply (Redis_get_expired now sid ks p d).
      * apply lookup_delete_eq.
      * intros now'. split; [apply RedisClient_get_deleted |].
        apply Redis_get_absent, RedisClient_get_deleted.
    + by intros d ks' (p & _ & _ & He & _)%Redis_get_Some_inv.
    + intros Hlaws. apply Redis_get_valid.
Qed.

Lemma get_returns_live_record_and_drops_expired_witness :
  Memory.get (Q2Qc (1001 # 1)) "abc" one_session
    = Ok (Some python_session, one_session) ∧
  (∃ s', Memory.get (Q2Qc (1003 # 1)) "abc" one_session = Ok (None, s') ∧
         s' !! "abc" = None ∧
         ∀ now', Memory.get now' "abc" s' = Ok (None, s')) ∧
  Redis.get (Q2Qc (1001 # 1)) "abc" one_key = Ok (Some python_session, one_key) ∧
  (∃ ks', Redis.get (Q2Qc (1003 # 1)) "abc" one_key = Ok (None, ks') ∧
          ks' !! Redis._key "abc" = None ∧
          ∀ now', RedisClient.get now' (Redis._key "abc") ks' = None ∧
                  Redis.get now' "abc" ks' = Ok (None, ks')).
Proof.
  destruct (get_returns_live_record_and_drops_expired (payload := text)
              (Q2Qc (1001 # 1)) "abc") as [Hm1 Hr1].
  destruct (get_returns_live_record_and_drops_expired (payload := text)
              (Q2Qc (1003 # 1)) "abc") as [Hm3 Hr3].
  split_and!.
  - apply (Hm1 one_session); reflexivity.
  - apply (Hm3 one_session) with (d := python_session); reflexivity.
  - apply (Hr1 one_key) with (p := SessionData.dumps python_session);
      reflexivity.
  - apply (Hr3 one_key)
      with (p := SessionData.dumps python_session) (d := python_session);
      reflexivity.
Defined.

(** ** Writing *)

(** C5, as the code has it: in the in-memory store always, and in the
    Redis store whenever [save] succeeds, [save] replaces whatever was
    stored under the id by the given record, exactly as [create] does; a
    later [get] returns the saved record or [None], never a record with a
    field of the one stored before, and the Redis expiration is set anew
    to [ttl] seconds after the save.  In the Redis store [save] succeeds
    for an integer [ttl] exactly when the server takes it as an
    expiration; it takes no [ttl] that is zero or negative, and [save]
    then raises. *)
Theorem save_replaces_whole_record `{JsonLaws payload} `{!RedisRules}
    (sid : string) (r : SessionData) :
  (∀ s : gmap string SessionData,
     Memory.save sid r s = Memory.create sid r s ∧
     ∃ s', Memory.save sid r s = Ok (tt, s') ∧
           s' !! sid = Some r ∧
           (∀ now' r' s'', Memory.get now' sid s' = Ok (Some r', s'') → r' = r) ∧
           (∀ now', SessionData.expired now' r = Ok false →
                    Memory.get now' sid s' = Ok (Some r, s'))) ∧
  (∀ (now : Qc) (ks ks' : gmap string (entry payload)) (m : gmap string pyval),
     files r = VDict m → Redis.save now sid r ks = Ok (tt, ks') →
     Redis.create now sid r ks = Ok (tt, ks') ∧
     value <$> ks' !! Redis._key sid = Some (SessionData.dumps r) ∧
     (∀ now' r' ks'', Redis.get now' sid ks' = Ok (Some r', ks'') → r' = r) ∧
     (∀ z, ttl r = VInt z →
           expire_at <$> ks' !! Redis._key sid
             = Some (Some (now + Qc_of_Z z)%Qc) ∧
           ∀ now', (now' ≤ now + Qc_of_Z z)%Qc →
                   SessionData.expired now' r = Ok false →
                   Redis.get now' sid ks' = Ok (Some r, ks'))) ∧
  (∀ (now : Qc) (ks : gmap string (entry payload)) (z : Z),
     ttl r = VInt z →
     (takes_ex now z = true → ∃ ks', Redis.save now sid r ks = Ok (tt, ks')) ∧
     (takes_ex now z = false → Redis.save now sid r ks = Raise ResponseError) ∧
     (RedisLaws → z ≤ 0 → Redis.save now sid r ks = Raise ResponseError)).
Proof.
  split_and!.
  - intros s. split; [done |].
    exists (<[sid := r]> s). split_and!.
    + done.
    + apply lookup_insert_eq.
    + intros now' r' s''. apply Memory_get_after_save.
    + intros now' He. apply Memory_get_fresh; [apply lookup_insert_eq | done].
  - intros now ks ks' m Hf Hsave.
    destruct (Redis_save_Ok_inv now sid r ks ks' Hsave) as [q Hks].
    split_and!.
    + done.
    + by rewrite Hks, lookup_insert_eq.
    + intros now' r' ks''. rewrite Hks. intros ->%Redis_get_after_insert.
      rewrite Hf, or_dict, <- Hf. by destruct r.
    + intros z Ht.
      destruct (Redis_save_int_Ok_inv now sid r z ks ks' Ht Hsave) as [_ ->].
      split; [by rewrite lookup_insert_eq |].
      intros now' Hlive He.
      apply (Redis_get_fresh _ _ _ (SessionData.dumps r)); [| | done].
      * rewrite RedisClient_get_inserted. unfold RedisClient.live; simpl.
        by rewrite bool_decide_eq_true_2.
      * by apply (loads_dumps_dict now' r m).
  - intros now ks z Ht. split_and!.
    + intros Hz. eexists. by apply Redis_save_int.
    + intros Hz. by apply (Redis_save_refused now sid r z).
    + intros Hlaws Hz. apply (Redis_save_refused now sid r z); [done |].
      destruct (takes_ex now z) eqn:Htake; [| done].
      apply takes_ex_range in Htake. lia.
Qed.

#[global] Instance sample_rules_laws : RedisLaws.
Proof. split. intros now z Hz. simpl in Hz. lia. Qed.

Lemma save_replaces_whole_record_witness :
  (∃ s', Memory.save "abc" python_session {["abc" := older_session]} = Ok (tt, s') ∧
         s' !! "abc" = Some python_session ∧
         (∀ now' r' s'', Memory.get now' "abc" s' = Ok (Some r', s'') →
                         r' = python_session) ∧
         (∀ now', SessionData.expired now' python_session = Ok false →
                  Memory.get now' "abc" s' = Ok (Some python_session, s'))) ∧
  (∃ ks', Redis.save (Q2Qc (1000 # 1)) "abc" python_session older_key
            = Ok (tt, ks') ∧
          Redis.create (Q2Qc (1000 # 1)) "abc" python_session older_key
            = Ok (tt, ks') ∧
          value <$> ks' !! Redis._key "abc"
            = Some (SessionData.dumps python_session) ∧
          (∀ now' r' ks'', Redis.get now' "abc" ks' = Ok (Some r', ks'') →
                           r' = python_session)) ∧
  Redis.save (Q2Qc (950 # 1)) "abc" stillborn_session older_key
    = Raise ResponseError.
Proof.
  destruct (save_replaces_whole_record (payload := text) "abc" python_session)
    as (Hm & Hr & _).
  destruct (save_replaces_whole_record (payload := text) "abc" stillborn_session)
    as (_ & _ & Hz).
  split_and!.
  - apply (Hm {["abc" := older_session]}).
  - eexists. split; [reflexivity |].
    destruct (Hr (Q2Qc (1000 # 1)) older_key _ (VStr <$> {["a.py" := "x"]})
                eq_refl eq_refl) as (Hc & Hv & Hg & _).
    by split_and!.
  - apply (Hz (Q2Qc (950 # 1)) older_key 0); [reflexivity | apply _ | lia].
Defined.

(** The claim of C5 fails in the Redis store for a record with [ttl = 0]:
    [save] raises where the in-memory store saves, and a [get] still
    returns the record stored before. *)
Lemma redis_save_refuses_zero_ttl :
  Memory.save "abc" stillborn_session {["abc" := older_session]}
    = Ok (tt, {["abc" := stillborn_session]}) ∧
  Redis.save (Q2Qc (950 # 1)) "abc" stillborn_session older_key
    = Raise ResponseError ∧
  Redis.get (Q2Qc (950 # 1)) "abc" older_key = Ok (Some older_session, older_key).
Proof.
  split_and!; [| reflexivity | reflexivity].
  unfold Memory.save. by rewrite insert_singleton_eq.
Qed.

(** C6: [save] stores the record with the [last_used] it was given: the
    stored record's [last_used] equals [r.last_used] in both stores,
    whatever the clock reads at the save (in the Redis store whenever
    [save] succeeds, as it does when the server takes the integer [ttl] as
    an expiration).  Only [touch] sets [last_used] to the current time,
    leaving the other attributes as they are. *)
Theorem save_does_not_touch `{JsonLaws payload} `{!RedisRules}
    (sid : string) (r : SessionData) :
  (∀ s : gmap string SessionData,
     ∃ s', Memory.save sid r s = Ok (tt, s') ∧
           last_used <$> s' !! sid = Some (last_used r)) ∧
  (∀ (now : Qc) (ks ks' : gmap string (entry payload)),
     Redis.save now sid r ks = Ok (tt, ks') →
     ∃ e, ks' !! Redis._key sid = Some e ∧
          ∀ now', ∃ r', SessionData.loads now' (value e) = Ok r' ∧
                        last_used r' = last_used r) ∧
  (∀ (now : Qc) (ks : gmap string (entry payload)) (z : Z),
     ttl r = VInt z → takes_ex now z = true →
     ∃ ks', Redis.save now sid r ks = Ok (tt, ks')) ∧
  (∀ now : Qc,
     last_used (SessionData.touch now r) = VFloat now ∧
     language (SessionData.touch now r) = language r ∧
     ttl (SessionData.touch now r) = ttl r ∧
     files (SessionData.touch now r) = files r).
Proof.
  split_and!.
  - intros s. exists (<[sid := r]> s). split; [done |].
    by rewrite lookup_insert_eq.
  - intros now ks ks' [q ->]%Redis_save_Ok_inv. eexists. split.
    + apply lookup_insert_eq.
    + intros now'. eexists. split; [apply loads_dumps | done].
  - intros now ks z Ht Hz. eexists. by apply Redis_save_int.
  - done.
Qed.

Lemma save_does_not_touch_witness :
  ∃ ks', Redis.save (Q2Qc (1500 # 1)) "abc" python_session
           (∅ : gmap string (entry text)) = Ok (tt, ks') ∧
         ∃ e, ks' !! Redis._key "abc" = Some e ∧
              ∀ now', ∃ r', SessionData.loads now' (value e) = Ok r' ∧
                            last_used r' = last_used python_session.
Proof.
  destruct (save_does_not_touch (payload := text) "abc" python_session)
    as (_ & Hr & Hok & _).
  destruct (Hok (Q2Qc (1500 # 1)) ∅ 2 eq_refl eq_refl) as [ks' Hsave].
  exists ks'. split; [exact Hsave |]. by apply (Hr (Q2Qc (1500 # 1)) ∅).
Defined.

(** C7: in the Redis store [create] and [save] are the same operation, for
    every id, record and state of the server: one [set] of the key
    ["sf:session:" + sid] to the serialised record with [ex] the record's
    [ttl].  With an integer [ttl] that the server takes as an expiration
    both leave the key holding the serialised record, to expire [ttl]
    seconds after the call, and no other key changed; with one it does not
    take both raise. *)
Theorem redis_create_is_save `{Json payload} `{!RedisRules}
    (now : Qc) (sid : string) (r : SessionData)
    (ks : gmap string (entry payload)) :
  Redis.create now sid r ks = Redis.save now sid r ks ∧
  Redis.save now sid r ks
    = (ks' ← RedisClient.set now ("sf:session:" +:+ sid) (SessionData.dumps r)
               (ttl r) ks;
       Ok (tt, ks')) ∧
  (∀ z, ttl r = VInt z →
        (takes_ex now z = true →
         Redis.create now sid r ks = Ok (tt, set_with_expiry now sid r z ks) ∧
         Redis.save now sid r ks = Ok (tt, set_with_expiry now sid r z ks) ∧
         ∀ k, k ≠ "sf:session:" +:+ sid →
              set_with_expiry now sid r z ks !! k = ks !! k) ∧
        (takes_ex now z = false →
         Redis.create now sid r ks = Raise ResponseError ∧
         Redis.save now sid r ks = Raise ResponseError)).
Proof.
  split_and!; [done | done |].
  intros z Ht. unfold Redis.create. split.
  - intros Hz. rewrite (Redis_save_int now sid r z ks Ht Hz).
    split_and!; [done | done |].
    intros k Hk. unfold set_with_expiry. by rewrite lookup_insert_ne.
  - intros Hz. by rewrite (Redis_save_refused now sid r z ks Ht Hz).
Qed.

Lemma redis_create_is_save_witness :
  Redis.create (Q2Qc (1000 # 1)) "abc" python_session older_key
    = Ok (tt, set_with_expiry (Q2Qc (1000 # 1)) "abc" python_session 2 older_key) ∧
  Redis.save (Q2Qc (1000 # 1)) "abc" python_session older_key
    = Ok (tt, set_with_expiry (Q2Qc (1000 # 1)) "abc" python_session 2 older_key) ∧
  ∀ k, k ≠ "sf:session:" +:+ "abc" →
       set_with_expiry (Q2Qc (1000 # 1)) "abc" python_session 2 older_key !! k
         = older_key !! k.
Proof.
  destruct (redis_create_is_save (payload := text) (Q2Qc (1000 # 1)) "abc"
              python_session older_key) as (_ & _ & H).
  apply (H 2); reflexivity.
Defined.

(** ** Deleting *)

(** C9: in both stores [delete] returns without raising whether or not the
    id has a record; with no record it changes nothing, with one it removes
    it; a second [delete] of the same id succeeds as well and changes
    nothing more. *)
Theorem delete_is_idempotent {payload : Type} (sid : string) :
  (∀ s : gmap string SessionData,
     ∃ s', Memory.delete sid s = Ok (tt, s') ∧
           s' !! sid = None ∧
           (s !! sid = None → s' = s) ∧
           (∀ k, k ≠ sid → s' !! k = s !! k) ∧
           Memory.delete sid s' = Ok (tt, s')) ∧
  (∀ ks : gmap string (entry payload),
     ∃ ks', Redis.delete sid ks = Ok (tt, ks') ∧
            ks' !! Redis._key sid = None ∧
            (ks !! Redis._key sid = None → ks' = ks) ∧
            (∀ k, k ≠ Redis._key sid → ks' !! k = ks !! k) ∧
            Redis.delete sid ks' = Ok (tt, ks')).
Proof.
  split.
  - intros s. exists (delete sid s). split_and!.
    + done.
    + apply lookup_delete_eq.
    + apply delete_id.
    + intros k Hk. by apply lookup_delete_ne.
    + unfold Memory.delete. by rewrite delete_delete_eq.
  - intros ks. exists (delete (Redis._key sid) ks). split_and!.
    + done.
    + apply lookup_delete_eq.
    + apply delete_id.
    + intros k Hk. by apply lookup_delete_ne.
    + unfold Redis.delete, RedisClient.delete. by rewrite delete_delete_eq.
Qed.

Lemma delete_is_idempotent_witness :
  (∃ s', Memory.delete "abc" (∅ : gmap string SessionData) = Ok (tt, s') ∧
         s' !! "abc" = None ∧
         ((∅ : gmap string SessionData) !! "abc" = None → s' = ∅) ∧
         (∀ k, k ≠ "abc" → s' !! k = (∅ : gmap string SessionData) !! k) ∧
         Memory.delete "abc" s' = Ok (tt, s')) ∧
  (∃ ks', Redis.delete "abc" one_key = Ok (tt, ks') ∧
          ks' !! Redis._key "abc" = None ∧
          (one_key !! Redis._key "abc" = None → ks' = one_key) ∧
          (∀ k, k ≠ Redis._key "abc" → ks' !! k = one_key !! k) ∧
          Redis.delete "abc" ks' = Ok (tt, ks')).
Proof.
  destruct (delete_is_idempotent (payload := text) "abc") as [Hm Hr].
  split; [apply (Hm ∅) | apply (Hr one_key)].
Defined.

(** ** The factory *)

Section FactoryProperties.

Context {client : Type}.
Variable from_url : pyval → result client.
Implicit Types (environ : gmap string string) (u : string).

Lemma truthy_VStr u : u ≠ "" → Py.truthy (VStr u) = true.
Proof. intros Hu. simpl. by destruct (String.eqb_spec u ""). Qed.

Lemma getenv_set environ name u :
  environ !! name = Some u → getenv environ name = VStr u.
Proof. unfold getenv. by intros ->. Qed.

Lemma getenv_unset environ name :
  environ !! name = None → getenv environ name = VNone.
Proof. unfold getenv. by intros ->. Qed.

Lemma get_store_first environ u :
  environ !! "REDIS_URL" = Some u → u ≠ "" →
  get_store from_url environ = new_RedisSessionStore from_url (VStr u).
Proof.
  intros H1 Hu. unfold get_store, Py.or_.
  by rewrite (getenv_set _ _ u H1), !truthy_VStr.
Qed.

Lemma get_store_second environ u :
  Py.truthy (getenv environ "REDIS_URL") = false →
  environ !! "REDIS_URI" = Some u → u ≠ "" →
  get_store from_url environ = new_RedisSessionStore from_url (VStr u).
Proof.
  intros H1 H2 Hu. unfold get_store, Py.or_.
  by rewrite H1, (getenv_set _ _ u H2), truthy_VStr.
Qed.

Lemma get_store_neither environ :
  Py.truthy (getenv environ "REDIS_URL") = false →
  Py.truthy (getenv environ "REDIS_URI") = false →
  get_store from_url environ = Ok (MemorySessionStore ∅).
Proof. intros H1 H2. unfold get_store, Py.or_. by rewrite H1, H2. Qed.

(** [REDIS_URL] set to the empty string counts as not set. *)
Lemma get_store_empty_first environ :
  environ !! "REDIS_URL" = Some "" →
  get_store from_url environ = get_store from_url (delete "REDIS_URL" environ).
Proof.
  intros H1. unfold get_store, Py.or_.
  rewrite (getenv_set _ _ "" H1); simpl.
  rewrite (getenv_unset (delete "REDIS_URL" environ) "REDIS_URL")
    by apply lookup_delete_eq.
  simpl. unfold getenv. by rewrite lookup_delete_ne.
Qed.

Lemma get_store_Raise_inv environ (e : exn) :
  get_store from_url environ = Raise e →
  ∃ u, (environ !! "REDIS_URL" = Some u ∨ environ !! "REDIS_URI" = Some u) ∧
       from_url (VStr u) = Raise e.
Proof.
  unfold get_store, Py.or_, new_MemorySessionStore, new_RedisSessionStore, getenv.
  intros H.
  destruct (environ !! "REDIS_URL") as [u1|];
    destruct (environ !! "REDIS_URI") as [u2|]; simpl in H;
    repeat match type of H with
           | context [String.eqb ?a ?b] => destruct (String.eqb a b); simpl in H
           end;
    try discriminate H;
    match type of H with
    | context [from_url ?v] =>
        destruct (from_url v) eqn:Hu; cbn in H; [discriminate H |]
    end;
    injection H as ->; eauto.
Qed.

End FactoryProperties.

(** C8: [get_store] looks at [REDIS_URL] first and [REDIS_URI] second.  A
    connection string in [REDIS_URL] is the one used, whatever [REDIS_URI]
    holds; with [REDIS_URL] unset, a connection string in [REDIS_URI] is
    used; in both cases the result is a Redis store holding the client
    built from that string, returned without raising when the client
    library builds one, and nothing is sent to the server.  With neither
    variable set the result is an in-memory store with nothing in it.  The
    only exception [get_store] can raise is one raised by the client
    library when it builds the client. *)
Theorem get_store_selects_backend {client : Type}
    (from_url : pyval → result client) (environ : gmap string string) :
  (∀ u c, environ !! "REDIS_URL" = Some u → u ≠ "" →
          from_url (VStr u) = Ok c →
          get_store from_url environ = Ok (RedisSessionStore c)) ∧
  (∀ u c, environ !! "REDIS_URL" = None → environ !! "REDIS_URI" = Some u →
          u ≠ "" → from_url (VStr u) = Ok c →
          get_store from_url environ = Ok (RedisSessionStore c)) ∧
  (environ !! "REDIS_URL" = None → environ !! "REDIS_URI" = None →
   get_store from_url environ = Ok (MemorySessionStore ∅)) ∧
  (∀ e, get_store from_url environ = Raise e →
        ∃ u, (environ !! "REDIS_URL" = Some u ∨ environ !! "REDIS_URI" = Some u) ∧
             from_url (VStr u) = Raise e).
Proof.
  split_and!.
  - intros u c H1 Hu Hok. rewrite (get_store_first _ _ u H1 Hu).
    unfold new_RedisSessionStore. by rewrite Hok.
  - intros u c H1 H2 Hu Hok.
    rewrite (get_store_second _ _ u); [| by rewrite getenv_unset | done..].
    unfold new_RedisSessionStore. by rewrite Hok.
  - intros H1 H2. apply get_store_neither; by rewrite getenv_unset.
  - apply get_store_Raise_inv.
Qed.

Lemma get_store_selects_backend_witness :
  get_store redis_scheme_only
      (<["REDIS_URL" := "redis://cache:6379/0"]>
         {["REDIS_URI" := "redis://other:6379/1"]})
    = Ok (RedisSessionStore "redis://cache:6379/0") ∧
  get_store redis_scheme_only {["REDIS_URI" := "redis://other:6379/1"]}
    = Ok (RedisSessionStore "redis://other:6379/1") ∧
  get_store redis_scheme_only ∅ = Ok (MemorySessionStore ∅).
Proof.
  split_and!.
  - destruct (get_store_selects_backend redis_scheme_only
                (<["REDIS_URL" := "redis://cache:6379/0"]>
                   {["REDIS_URI" := "redis://other:6379/1"]})) as (H & _).
    apply (H "redis://cache:6379/0"); [reflexivity | discriminate | reflexivity].
  - destruct (get_store_selects_backend redis_scheme_only
                {["REDIS_URI" := "redis://other:6379/1"]}) as (_ & H & _).
    apply (H "redis://other:6379/1");
      [reflexivity | reflexivity | discriminate | reflexivity].
  - destruct (get_store_selects_backend redis_scheme_only ∅) as (_ & _ & H & _).
    apply H; reflexivity.
Defined.

(** * Further properties of the code *)

(** ** The record *)

Lemma Qc_sub_le_mono (a b c : Qc) : (a ≤ b → a - c ≤ b - c)%Qc.
Proof. intros Hab. unfold Qcminus. by apply Qcplus_le_mono_r. Qed.

Lemma expired_conversion_raises (now : Qc) (d : SessionData) (e : exn) :
  Py.to_float (last_used d) = Raise e → SessionData.expired now d = Raise e.
Proof.
  intros Hu. unfold SessionData.expired, Py.float_sub. by rewrite Hu.
Qed.

(** X1: expiry only moves one way as the clock advances.  For a record
    with numeric [last_used] and [ttl], once [expired()] answers yes it
    answers yes at every later time, and when it answers no it answered no
    at every earlier time. *)
Theorem expired_monotone (d : SessionData) (t0 T now now' : Qc) :
  Py.as_number (last_used d) = Some t0 →
  Py.as_number (ttl d) = Some T →
  (now ≤ now')%Qc →
  (SessionData.expired now d = Ok true → SessionData.expired now' d = Ok true) ∧
  (SessionData.expired now' d = Ok false → SessionData.expired now d = Ok false).
Proof.
  intros Hu Ht Hle.
  destruct (to_float_number _ _ Hu) as [[y Hy] | Hover].
  - rewrite !(expired_numbers _ y T d Hy Ht).
    pose proof (round_mono (now - y) (now' - y) (Qc_sub_le_mono _ _ _ Hle)) as Hr.
    split; intros [= Hb]; f_equal.
    + by apply (gt_mono _ _ T Hr).
    + destruct (Binary64.gt (Binary64.round (now - y)) T) eqn:Hg; [| done].
      by rewrite (gt_mono _ _ T Hr Hg) in Hb.
  - rewrite !(expired_conversion_raises _ d _ Hover). by split.
Qed.

Lemma expired_monotone_witness :
  SessionData.expired (Q2Qc (2000 # 1)) python_session = Ok true.
Proof.
  destruct (expired_monotone python_session (Q2Qc (1000 # 1)) (Qc_of_Z 2)
              (Q2Qc (1003 # 1)) (Q2Qc (2000 # 1))) as [H _];
    [reflexivity | reflexivity | discriminate |].
  apply H. reflexivity.
Defined.

Lemma expired_since (now now' T : Qc) (d : SessionData) :
  last_used d = VFloat now → Py.as_number (ttl d) = Some T →
  SessionData.expired now' d
    = Ok (Binary64.gt (Binary64.round (now' - now)) T).
Proof. intros Hu Ht. apply expired_numbers; [by rewrite Hu | done]. Qed.

Lemma expired_touch_live (now now' T : Qc) (d : SessionData) :
  Py.as_number (ttl d) = Some T → Binary64.exact T → (now' ≤ now + T)%Qc →
  SessionData.expired now' (SessionData.touch now d) = Ok false.
Proof.
  intros Ht HT Hle. rewrite (expired_since now now' T) by done.
  f_equal. apply gt_le_false. rewrite <- HT. apply round_mono.
  apply (Qcplus_le_mono_r _ _ now).
  replace (now' - now + now)%Qc with now' by ring.
  by rewrite (Qcplus_comm T now).
Qed.

Lemma expired_touch_dead (now now' T f : Qc) (d : SessionData) :
  Py.as_number (ttl d) = Some T →
  Binary64.exact f → (T < f)%Qc → (f ≤ now' - now)%Qc →
  SessionData.expired now' (SessionData.touch now d) = Ok true.
Proof.
  intros Ht Hf HT Hle. rewrite (expired_since now now' T) by done.
  f_equal. apply (gt_ge_true _ f); [| done].
  rewrite <- Hf. by apply round_mono.
Qed.

(** X2: a record that has just been constructed or touched is expired at
    that very instant exactly when its [ttl] is negative.  With a [ttl]
    that is a binary64 number it stays unexpired up to and including [ttl]
    seconds later; it is expired at a later time as soon as the time
    elapsed reaches a binary64 number above [ttl], as it does one second
    past an integer [ttl] below [2^53 - 1] in size. *)
Theorem fresh_record_lifetime (now : Qc) (d : SessionData) (l f : pyval) (T : Qc) :
  Py.as_number (ttl d) = Some T →
  SessionData.expired now (SessionData.touch now d) = Ok (bool_decide (T < 0)%Qc) ∧
  SessionData.expired now (SessionData.init now l (ttl d) f)
    = Ok (bool_decide (T < 0)%Qc) ∧
  (Binary64.exact T →
   ∀ now', (now' ≤ now + T)%Qc →
           SessionData.expired now' (SessionData.touch now d) = Ok false) ∧
  (∀ now' g, Binary64.exact g → (T < g)%Qc → (g ≤ now' - now)%Qc →
             SessionData.expired now' (SessionData.touch now d) = Ok true) ∧
  (∀ z, ttl d = VInt z → - 2 ^ 53 < z < 2 ^ 53 - 1 →
        ∀ now', (now + Qc_of_Z (z + 1) ≤ now')%Qc →
                SessionData.expired now' (SessionData.touch now d) = Ok true).
Proof.
  intros Ht.
  assert (H0 : ∀ d', last_used d' = VFloat now → ttl d' = ttl d →
                     SessionData.expired now d' = Ok (bool_decide (T < 0)%Qc)).
  { intros d' Hu Ht'. rewrite (expired_since now now T) by (by rewrite ?Ht').
    replace (now - now)%Qc with 0%Qc by ring. by rewrite round_zero. }
  split_and!.
  - by apply H0.
  - by apply H0.
  - intros HT now'. by apply expired_touch_live.
  - intros now' g. by apply expired_touch_dead.
  - intros z Hz Hrange now' Hle.
    assert (T = Qc_of_Z z) as -> by (rewrite Hz in Ht; simpl in Ht; congruence).
    apply (expired_touch_dead now now' (Qc_of_Z z) (Qc_of_Z (z + 1))).
    + done.
    + apply round_int. lia.
    + apply Qc_of_Z_lt. lia.
    + apply (Qcplus_le_mono_r _ _ now).
      replace (now' - now + now)%Qc with now' by ring.
      by rewrite (Qcplus_comm _ now).
Qed.

Lemma fresh_record_lifetime_witness :
  SessionData.expired (Q2Qc (5 # 1)) (SessionData.touch (Q2Qc (5 # 1)) python_session)
    = Ok false ∧
  SessionData.expired (Q2Qc (7 # 1)) (SessionData.touch (Q2Qc (5 # 1)) python_session)
    = Ok false ∧
  SessionData.expired (Q2Qc (8 # 1)) (SessionData.touch (Q2Qc (5 # 1)) python_session)
    = Ok true.
Proof.
  destruct (fresh_record_lifetime (Q2Qc (5 # 1)) python_session VNone VNone
              (Qc_of_Z 2) eq_refl) as (H0 & _ & Hlive & _ & Hdead).
  split_and!.
  - exact H0.
  - apply Hlive; [apply round_int; lia | discriminate].
  - apply (Hdead 2); [reflexivity | lia | discriminate].
Defined.

(** X3: the constructor makes valid records out of well-typed arguments:
    with a string, an integer and either a mapping of strings or [None]
    for [files], the new record has the annotated types, its [last_used]
    is the time of construction, and [None] (like the empty mapping) gives
    an empty [files]. *)
Theorem init_valid (now : Qc) (l : string) (t : Z) (m : gmap string string) :
  valid (SessionData.init now (VStr l) (VInt t) (VDict (VStr <$> m))) ∧
  valid (SessionData.init now (VStr l) (VInt t) VNone) ∧
  last_used (SessionData.init now (VStr l) (VInt t) VNone) = VFloat now ∧
  files (SessionData.init now (VStr l) (VInt t) (VDict (VStr <$> m)))
    = VDict (VStr <$> m) ∧
  files (SessionData.init now (VStr l) (VInt t) VNone) = VDict ∅ ∧
  files (SessionData.init now (VStr l) (VInt t) (VDict ∅)) = VDict ∅.
Proof.
  assert (Hnone : Py.or_ VNone (VDict ∅) = VDict ∅) by done.
  assert (Hempty : valid {| language := VStr l; ttl := VInt t;
                            last_used := VFloat now; files := VDict ∅ |}).
  { replace (VDict ∅) with (VDict (VStr <$> (∅ : gmap string string)))
      by (by rewrite fmap_empty).
    apply valid_intro. }
  unfold SessionData.init. rewrite Hnone, !or_dict.
  split_and!; [apply valid_intro | exact Hempty | done..].
Qed.

(** ** Serialisation, further *)

(** X4: what [loads] returns depends neither on the clock (the
    [last_used] set by the constructor is overwritten) nor on any key of
    the payload other than the four it reads: two payloads that are JSON
    objects agreeing on [language], [ttl], [last_used] and [files] load to
    the same result at any two times. *)
Theorem loads_ignores_clock_and_other_keys `{Json payload}
    (now now' : Qc) (p p' : payload) (m m' : gmap string pyval) :
  json_loads p = Ok (VDict m) → json_loads p' = Ok (VDict m') →
  (∀ k, k ∈ required_keys → m !! k = m' !! k) →
  SessionData.loads now p = SessionData.loads now' p ∧
  SessionData.loads now p = SessionData.loads now' p'.
Proof.
  intros Hp Hp' Hk.
  assert (Hgen : ∀ (t t' : Qc) (q q' : payload) (n n' : gmap string pyval),
            json_loads q = Ok (VDict n) → json_loads q' = Ok (VDict n') →
            (∀ k, k ∈ required_keys → n !! k = n' !! k) →
            SessionData.loads t q = SessionData.loads t' q').
  { intros t t' q q' n n' Hq Hq' Hn. unfold SessionData.loads.
    rewrite Hq, Hq'; cbn.
    rewrite <- !Hn by in_required_keys.
    destruct (n !! "language"); cbn; [| done].
    destruct (n !! "ttl"); cbn; [| done].
    destruct (n !! "files"); cbn; [| done].
    by destruct (n !! "last_used"). }
  split; [by apply (Hgen _ _ _ _ m m) | by apply (Hgen _ _ _ _ m m')].
Qed.

Lemma loads_ignores_clock_and_other_keys_witness :
  SessionData.loads 0%Qc (JsonText (VDict null_files_object))
    = SessionData.loads 1%Qc (JsonText (VDict annotated_object)).
Proof.
  destruct (loads_ignores_clock_and_other_keys 0%Qc 1%Qc
              (JsonText (VDict null_files_object))
              (JsonText (VDict annotated_object))
              null_files_object annotated_object) as [_ H];
    [reflexivity | reflexivity | | exact H].
  intros k Hk. unfold required_keys in Hk.
  rewrite !elem_of_cons, elem_of_nil in Hk.
  destruct Hk as [-> | [-> | [-> | [-> | []]]]]; reflexivity.
Defined.

(** X5: [dumps] loses nothing of a record: two records with the same
    serialisation have the same four attributes. *)
Theorem dumps_injective `{JsonLaws payload} (d1 d2 : SessionData) :
  (SessionData.dumps d1 : payload) = SessionData.dumps d2 → d1 = d2.
Proof.
  unfold SessionData.dumps. intros Heq.
  apply (f_equal json_loads) in Heq. rewrite !json_loads_dumps in Heq.
  pose proof (f_equal (λ r : result pyval,
                match r with Ok (VDict m) => m | _ => ∅ end) Heq) as Hm.
  simpl in Hm. clear Heq.
  pose proof (f_equal (λ m : gmap string pyval, m !! "language") Hm) as Hl.
  pose proof (f_equal (λ m : gmap string pyval, m !! "ttl") Hm) as Ht.
  pose proof (f_equal (λ m : gmap string pyval, m !! "last_used") Hm) as Hu.
  pose proof (f_equal (λ m : gmap string pyval, m !! "files") Hm) as Hf.
  simpl in Hl, Ht, Hu, Hf. simplify_map_eq.
  destruct d1, d2; simpl in *. congruence.
Qed.

Lemma dumps_injective_witness :
  {| language := VStr "python"; ttl := VInt 2;
     last_used := VFloat (Q2Qc (1000 # 1));
     files := VDict (VStr <$> {["a.py" := "x"]}) |} = python_session.
Proof.
  apply (dumps_injective (payload := text)). reflexivity.
Defined.

(** X6: for any record, valid or not, serialising and loading gives the
    record back exactly when its [files] is a true value or is the empty
    mapping; any other false [files] ([None], [0], the empty string, the
    empty list) comes back as the empty mapping.  What comes back is then
    stable: serialising and loading it again changes nothing. *)
Theorem roundtrip_exact_iff_files_kept `{JsonLaws payload}
    (now : Qc) (d : SessionData) :
  (SessionData.loads now (SessionData.dumps d : payload) = Ok d ↔
   Py.truthy (files d) = true ∨ files d = VDict ∅) ∧
  (Py.truthy (files d) = false →
   SessionData.loads now (SessionData.dumps d : payload)
     = Ok {| language := language d; ttl := ttl d; last_used := last_used d;
             files := VDict ∅ |}) ∧
  (∀ d' now', SessionData.loads now (SessionData.dumps d : payload) = Ok d' →
              SessionData.loads now' (SessionData.dumps d' : payload) = Ok d').
Proof.
  assert (Hiff : ∀ t e, SessionData.loads t (SessionData.dumps e : payload) = Ok e ↔
                        Py.truthy (files e) = true ∨ files e = VDict ∅).
  { intros t e. rewrite loads_dumps. unfold Py.or_.
    destruct (Py.truthy (files e)) eqn:Htr.
    - split; [by left |]. intros _. by destruct e.
    - split.
      + intros [= Hf]. right. by rewrite <- Hf at 1.
      + intros [? | Hf]; [done |]. destruct e; simpl in *. by rewrite Hf. }
  split_and!.
  - apply Hiff.
  - intros Hfalse. by rewrite loads_dumps, or_falsy.
  - intros d' now'. rewrite loads_dumps. intros [= <-].
    apply Hiff. simpl. unfold Py.or_.
    destruct (Py.truthy (files d)) eqn:Htr; [by left | by right].
Qed.

Lemma roundtrip_exact_iff_files_kept_witness :
  SessionData.loads 0%Qc (SessionData.dumps fileless_session : text)
    = Ok {| language := VStr "python"; ttl := VInt 2;
            last_used := VFloat (Q2Qc (1000 # 1)); files := VDict ∅ |}.
Proof.
  destruct (roundtrip_exact_iff_files_kept (payload := text) 0%Qc fileless_session)
    as (_ & H & _).
  apply H. reflexivity.
Defined.

(** ** The stores, further *)

Lemma Memory_get_Ok_inv now sid (s : gmap string SessionData) r s' :
  Memory.get now sid s = Ok (r, s') →
  (s !! sid = None ∧ r = None ∧ s' = s) ∨
  (∃ d, s !! sid = Some d ∧ SessionData.expired now d = Ok false ∧
        r = Some d ∧ s' = s) ∨
  (∃ d, s !! sid = Some d ∧ SessionData.expired now d = Ok true ∧
        r = None ∧ s' = delete sid s).
Proof.
  unfold Memory.get. destruct (s !! sid) as [d|] eqn:Hs.
  - destruct (SessionData.expired now d) as [[|]|e] eqn:He; cbn; [| | done].
    + intros [= <- <-]. right; right. by exists d.
    + intros [= <- <-]. right; left. by exists d.
  - intros [= <- <-]. by left.
Qed.

Lemma Redis_get_Ok_inv `{Json payload} now sid
    (ks : gmap string (entry payload)) r ks' :
  Redis.get now sid ks = Ok (r, ks') →
  (RedisClient.get now (Redis._key sid) ks = None ∧ r = None ∧ ks' = ks) ∨
  (∃ p d, RedisClient.get now (Redis._key sid) ks = Some p ∧
          SessionData.loads now p = Ok d ∧
          SessionData.expired now d = Ok false ∧ r = Some d ∧ ks' = ks) ∨
  (∃ p d, RedisClient.get now (Redis._key sid) ks = Some p ∧
          SessionData.loads now p = Ok d ∧
          SessionData.expired now d = Ok true ∧
          r = None ∧ ks' = delete (Redis._key sid) ks).
Proof.
  unfold Redis.get.
  destruct (RedisClient.get now (Redis._key sid) ks) as [p|] eqn:Hp.
  - destruct (SessionData.loads now p) as [d|e] eqn:Hl; cbn; [| done].
    destruct (SessionData.expired now d) as [[|]|e] eqn:He; cbn; [| | done].
    + intros [= <- <-]. right; right. by exists p, d.
    + intros [= <- <-]. right; left. by exists p, d.
  - intros [= <- <-]. by left.
Qed.

Lemma Redis_key_inj (sid sid' : string) :
  Redis._key sid = Redis._key sid' → sid = sid'.
Proof. unfold Redis._key. cbn. intros Heq. by simplify_eq. Qed.

Lemma Memory_get_frame now sid (s s' : gmap string SessionData) r :
  Memory.get now sid s = Ok (r, s') →
  s' ⊆ s ∧ (∀ k, k ≠ sid → s' !! k = s !! k) ∧ r = s' !! sid.
Proof.
  intros [(Hs & -> & ->) | [(d & Hs & _ & -> & ->) | (d & Hs & _ & -> & ->)]]%Memory_get_Ok_inv.
  - done.
  - done.
  - split_and!; [apply delete_subseteq | | by rewrite lookup_delete_eq].
    intros k Hk. by rewrite lookup_delete_ne.
Qed.

Lemma Redis_get_frame `{Json payload} now sid
    (ks ks' : gmap string (entry payload)) r :
  Redis.get now sid ks = Ok (r, ks') →
  ks' ⊆ ks ∧ (∀ k, k ≠ Redis._key sid → ks' !! k = ks !! k).
Proof.
  intros Hget.
  assert (ks' = ks ∨ ks' = delete (Redis._key sid) ks) as [-> | ->].
  { apply Redis_get_Ok_inv in Hget
      as [(_ & _ & ->) | [(p & d & _ & _ & _ & _ & ->) | (p & d & _ & _ & _ & _ & ->)]];
      auto. }
  - done.
  - split; [apply delete_subseteq |].
    intros k Hk. by rewrite lookup_delete_ne.
Qed.

(** X8: [get] never adds or changes an entry.  In both stores the state
    after a [get] is the state before with at most the entry of the asked
    id removed; every other id (every other key) is as it was, and in the
    in-memory store what [get] returns is exactly what the store holds
    under the id afterwards. *)
Theorem get_only_removes_own_entry `{Json payload} (now : Qc) (sid : string) :
  (∀ (s s' : gmap string SessionData) r,
     Memory.get now sid s = Ok (r, s') →
     s' ⊆ s ∧ (∀ k, k ≠ sid → s' !! k = s !! k) ∧ r = s' !! sid) ∧
  (∀ (ks ks' : gmap string (entry payload)) r,
     Redis.get now sid ks = Ok (r, ks') →
     ks' ⊆ ks ∧ (∀ k, k ≠ Redis._key sid → ks' !! k = ks !! k) ∧
     (∀ sid', sid' ≠ sid → ks' !! Redis._key sid' = ks !! Redis._key sid')).
Proof.
  split.
  - intros s s' r. apply Memory_get_frame.
  - intros ks ks' r Hget.
    destruct (Redis_get_frame now sid ks ks' r Hget) as [Hsub Hframe].
    split_and!; [done | done |].
    intros sid' Hne. apply Hframe.
    intros Heq. by apply Hne, Redis_key_inj.
Qed.

Lemma get_only_removes_own_entry_witness :
  delete "abc" one_session ⊆ one_session ∧
  (∀ k, k ≠ "abc" → delete "abc" one_session !! k = one_session !! k) ∧
  None = delete "abc" one_session !! "abc".
Proof.
  destruct (get_only_removes_own_entry (payload := text) (Q2Qc (1003 # 1)) "abc")
    as [Hm _].
  apply (Hm one_session (delete "abc" one_session) None). reflexivity.
Defined.

(** X9: reading is repeatable.  In both stores a second [get] of the same
    id at the same clock reading returns what the first returned and
    changes nothing more. *)
Theorem get_twice_is_get_once `{Json payload} (now : Qc) (sid : string) :
  (∀ (s s' : gmap string SessionData) r,
     Memory.get now sid s = Ok (r, s') → Memory.get now sid s' = Ok (r, s')) ∧
  (∀ (ks ks' : gmap string (entry payload)) r,
     Redis.get now sid ks = Ok (r, ks') → Redis.get now sid ks' = Ok (r, ks')).
Proof.
  split.
  - intros s s' r Hget. pose proof Hget as
      [(Hs & -> & ->) | [(d & Hs & _ & -> & ->) | (d & Hs & _ & -> & ->)]]%Memory_get_Ok_inv.
    + done.
    + done.
    + apply Memory_get_absent, lookup_delete_eq.
  - intros ks ks' r Hget. pose proof Hget as
      [(_ & -> & ->) | [(p & d & _ & _ & _ & -> & ->) | (p & d & _ & _ & _ & -> & ->)]]%Redis_get_Ok_inv.
    + done.
    + done.
    + apply Redis_get_absent, RedisClient_get_deleted.
Qed.

Lemma get_twice_is_get_once_witness :
  Memory.get (Q2Qc (1003 # 1)) "abc" (delete "abc" one_session)
    = Ok (None, delete "abc" one_session).
Proof.
  destruct (get_twice_is_get_once (payload := text) (Q2Qc (1003 # 1)) "abc")
    as [Hm _].
  apply (Hm one_session). reflexivity.
Defined.

(** X10: sessions do not interfere.  The key of a session determines its
    id, and in both stores a [create], [save], [delete] or [get] for one id
    leaves the entry of every other id, and so what the backend answers for
    it at any time, as it was. *)
Theorem sessions_are_isolated `{Json payload} `{!RedisRules}
    (sid sid' : string) :
  sid ≠ sid' →
  Redis._key sid ≠ Redis._key sid' ∧
  (∀ (s s' : gmap string SessionData) now d r,
     Memory.create sid d s = Ok (tt, s') ∨ Memory.save sid d s = Ok (tt, s') ∨
     Memory.delete sid s = Ok (tt, s') ∨ Memory.get now sid s = Ok (r, s') →
     s' !! sid' = s !! sid' ∧
     ∀ now', returned (Memory.get now' sid' s')
               = returned (Memory.get now' sid' s)) ∧
  (∀ (ks ks' : gmap string (entry payload)) now d r,
     Redis.create now sid d ks = Ok (tt, ks') ∨
     Redis.save now sid d ks = Ok (tt, ks') ∨
     Redis.delete sid ks = Ok (tt, ks') ∨ Redis.get now sid ks = Ok (r, ks') →
     ks' !! Redis._key sid' = ks !! Redis._key sid' ∧
     ∀ now', returned (Redis.get now' sid' ks')
               = returned (Redis.get now' sid' ks)).
Proof.
  intros Hne.
  assert (Hk : Redis._key sid ≠ Redis._key sid')
    by (intros Heq; by apply Hne, Redis_key_inj).
  split_and!; [done | |].
  - intros s s' now d r Hop.
    assert (Hs : s' !! sid' = s !! sid').
    { destruct Hop as [Hop | [Hop | [Hop | Hop]]].
      - injection Hop as <-. by rewrite lookup_insert_ne.
      - injection Hop as <-. by rewrite lookup_insert_ne.
      - injection Hop as <-. by rewrite lookup_delete_ne.
      - destruct (Memory_get_frame now sid s s' r Hop) as (_ & Hframe & _).
        by apply Hframe. }
    split; [done |]. intros now'. unfold Memory.get. rewrite Hs.
    destruct (s !! sid') as [d'|]; [| done].
    by destruct (SessionData.expired now' d') as [[|]|e].
  - intros ks ks' now d r Hop.
    assert (Hs : ks' !! Redis._key sid' = ks !! Redis._key sid').
    { destruct Hop as [Hop | [Hop | [Hop | Hop]]].
      - apply Redis_save_Ok_inv in Hop as [q ->]. by rewrite lookup_insert_ne.
      - apply Redis_save_Ok_inv in Hop as [q ->]. by rewrite lookup_insert_ne.
      - injection Hop as <-. unfold RedisClient.delete.
        by rewrite lookup_delete_ne.
      - destruct (Redis_get_frame now sid ks ks' r Hop) as (_ & Hframe).
        by apply Hframe. }
    split; [done |]. intros now'. unfold Redis.get, RedisClient.get.
    rewrite Hs. destruct (ks !! Redis._key sid') as [e|]; [| done].
    destruct (RedisClient.live now' e); [| done].
    destruct (SessionData.loads now' (value e)) as [d'|]; [| done]. cbn.
    by destruct (SessionData.expired now' d') as [[|]|].
Qed.

Lemma sessions_are_isolated_witness :
  Redis._key "abc" ≠ Redis._key "xyz".
Proof.
  apply (sessions_are_isolated (payload := text) "abc" "xyz"). discriminate.
Defined.

(** X11: [create] has no uniqueness check and [delete] undoes it.  In both
    stores a [create] that succeeds on an id that already has a record
    replaces it (the record held afterwards is the new one), and on an id
    that has none, [create] followed by [delete] gives back the state
    before.  In the in-memory store [create] always succeeds, in the Redis
    store it does when the server takes the integer [ttl] as an
    expiration. *)
Theorem create_overwrites_and_delete_undoes `{Json payload} `{!RedisRules}
    (sid : string) (d : SessionData) :
  (∀ s : gmap string SessionData,
     ∃ s1, Memory.create sid d s = Ok (tt, s1) ∧ s1 !! sid = Some d ∧
           (s !! sid = None → Memory.delete sid s1 = Ok (tt, s))) ∧
  (∀ (now : Qc) (ks ks1 : gmap string (entry payload)),
     Redis.create now sid d ks = Ok (tt, ks1) →
     value <$> ks1 !! Redis._key sid = Some (SessionData.dumps d) ∧
     (ks !! Redis._key sid = None → Redis.delete sid ks1 = Ok (tt, ks))) ∧
  (∀ (now : Qc) (ks : gmap string (entry payload)) (z : Z),
     ttl d = VInt z → takes_ex now z = true →
     ∃ ks1, Redis.create now sid d ks = Ok (tt, ks1)).
Proof.
  split_and!.
  - intros s. exists (<[sid := d]> s). split_and!; [done | apply lookup_insert_eq |].
    intros Hs. unfold Memory.delete.
    by rewrite delete_insert_eq, delete_id.
  - intros now ks ks1 [q ->]%Redis_save_Ok_inv. split.
    + by rewrite lookup_insert_eq.
    + intros Hs. unfold Redis.delete, RedisClient.delete.
      by rewrite delete_insert_eq, delete_id.
  - intros now ks z Ht Hz. eexists. unfold Redis.create. by apply Redis_save_int.
Qed.

Lemma create_overwrites_and_delete_undoes_witness :
  ∃ ks1, Redis.create (Q2Qc (1000 # 1)) "abc" python_session older_key
           = Ok (tt, ks1) ∧
         value <$> ks1 !! Redis._key "abc"
           = Some (SessionData.dumps python_session) ∧
         (older_key !! Redis._key "abc" = None →
          Redis.delete "abc" ks1 = Ok (tt, older_key)).
Proof.
  destruct (create_overwrites_and_delete_undoes (payload := text) "abc"
              python_session) as (_ & Hc & Hok).
  destruct (Hok (Q2Qc (1000 # 1)) older_key 2 eq_refl eq_refl) as [ks1 Hks1].
  exists ks1. split; [exact Hks1 |]. exact (Hc _ _ _ Hks1).
Defined.

(** X12: the in-memory store keeps its records valid and then never
    raises.  If every stored record is valid, it stays so after [create]
    or [save] of a valid record, after [delete] and after [get]; and on
    such a store [get] returns for every id and every clock reading. *)
Theorem memory_store_stays_valid (s : gmap string SessionData) :
  map_Forall (λ _ d, valid d) s →
  (∀ sid d s', valid d →
     Memory.create sid d s = Ok (tt, s') ∨ Memory.save sid d s = Ok (tt, s') →
     map_Forall (λ _ d, valid d) s') ∧
  (∀ sid s', Memory.delete sid s = Ok (tt, s') →
             map_Forall (λ _ d, valid d) s') ∧
  (∀ now sid, ∃ r s', Memory.get now sid s = Ok (r, s') ∧
                      map_Forall (λ _ d, valid d) s').
Proof.
  intros Hall. split_and!.
  - intros sid d s' Hd [[= <-] | [= <-]]; by apply map_Forall_insert_2.
  - intros sid s' [= <-]. by apply map_Forall_delete.
  - intros now sid. destruct (s !! sid) as [d|] eqn:Hs.
    + destruct (Memory_get_valid now sid s d Hs (Hall sid d Hs)) as (r & s' & Hget).
      exists r, s'. split; [done |].
      destruct (Memory_get_frame now sid s s' r Hget) as (Hsub & _ & _).
      intros k d' Hk. apply (Hall k d'). by apply (lookup_weaken s' s).
    + exists None, s. split; [by apply Memory_get_absent | done].
Qed.

Lemma memory_store_stays_valid_witness :
  ∃ r s', Memory.get (Q2Qc (1003 # 1)) "abc" one_session = Ok (r, s') ∧
          map_Forall (λ _ d, valid d) s'.
Proof.
  apply (memory_store_stays_valid one_session).
  apply map_Forall_singleton. exact python_session_valid.
Defined.

(** X13: the two backends answer alike.  When the in-memory store holds a
    record under an id and the Redis key of that id holds its
    serialisation, with [files] a mapping, [get] returns the same record,
    the same [None] or raises the same exception in both; and when neither
    holds anything for the id both return [None]. *)
Theorem backends_agree_on_get `{JsonLaws payload} (now : Qc) (sid : string)
    (s : gmap string SessionData) (ks : gmap string (entry payload)) :
  (∀ d m, s !! sid = Some d → files d = VDict m →
          RedisClient.get now (Redis._key sid) ks = Some (SessionData.dumps d) →
          returned (Redis.get now sid ks) = returned (Memory.get now sid s)) ∧
  (s !! sid = None → RedisClient.get now (Redis._key sid) ks = None →
   returned (Redis.get now sid ks) = Ok None ∧
   returned (Memory.get now sid s) = Ok None).
Proof.
  split.
  - intros d m Hs Hf Hp. unfold Redis.get, Memory.get.
    rewrite Hs, Hp, (loads_dumps_dict now d m Hf). cbn.
    by destruct (SessionData.expired now d) as [[|]|].
  - intros Hs Hp. by rewrite (Redis_get_absent _ _ _ Hp), (Memory_get_absent _ _ _ Hs).
Qed.

Lemma backends_agree_on_get_witness :
  returned (Redis.get (Q2Qc (1003 # 1)) "abc" one_key)
    = returned (Memory.get (Q2Qc (1003 # 1)) "abc" one_session).
Proof.
  destruct (backends_agree_on_get (payload := text) (Q2Qc (1003 # 1)) "abc"
              one_session one_key) as [H _].
  apply (H python_session (VStr <$> {["a.py" := "x"]})); reflexivity.
Defined.

(** X14: touching and saving keeps a session alive for [ttl] more
    seconds in the in-memory store.  After [touch] at time [now] and
    [save], with a [ttl] that is a binary64 number, [get] returns the
    touched record at every time up to and including [now + ttl]; at a
    later time it returns [None] and drops the record as soon as the time
    elapsed reaches a binary64 number above [ttl]. *)
Theorem touch_then_save_keeps_alive (now : Qc) (sid : string) (d : SessionData)
    (T : Qc) (s : gmap string SessionData) :
  Py.as_number (ttl d) = Some T →
  ∃ s1, Memory.save sid (SessionData.touch now d) s = Ok (tt, s1) ∧
        (Binary64.exact T →
         ∀ now', (now' ≤ now + T)%Qc →
           Memory.get now' sid s1 = Ok (Some (SessionData.touch now d), s1)) ∧
        (∀ now' g, Binary64.exact g → (T < g)%Qc → (g ≤ now' - now)%Qc →
           Memory.get now' sid s1 = Ok (None, delete sid s1)).
Proof.
  intros Ht.
  exists (<[sid := SessionData.touch now d]> s). split_and!.
  - done.
  - intros HT now' Hle. apply Memory_get_fresh;
      [apply lookup_insert_eq | by apply (expired_touch_live now now' T)].
  - intros now' g Hg HT Hle.
    apply (Memory_get_expired _ _ _ (SessionData.touch now d));
      [apply lookup_insert_eq | by apply (expired_touch_dead now now' T g)].
Qed.

Lemma touch_then_save_keeps_alive_witness :
  ∃ s1, Memory.save "abc" (SessionData.touch (Q2Qc (2000 # 1)) python_session)
          one_session = Ok (tt, s1) ∧
        (∀ now', (now' ≤ Q2Qc (2000 # 1) + Qc_of_Z 2)%Qc →
           Memory.get now' "abc" s1
             = Ok (Some (SessionData.touch (Q2Qc (2000 # 1)) python_session), s1)) ∧
        Memory.get (Q2Qc (2003 # 1)) "abc" s1 = Ok (None, delete "abc" s1).
Proof.
  destruct (touch_then_save_keeps_alive (Q2Qc (2000 # 1)) "abc" python_session
              (Qc_of_Z 2) one_session eq_refl) as (s1 & Hsave & Hlive & Hdead).
  exists s1. split_and!.
  - exact Hsave.
  - apply Hlive. apply round_int. lia.
  - apply (Hdead _ (Qc_of_Z 3)); [apply round_int; lia | reflexivity | discriminate].
Defined.

(** X15: the same in the Redis store, with the key's own expiration.
    After [touch] and [save] at time [now], with [files] a mapping and an
    integer [ttl] that is a binary64 number and that the server takes as
    an expiration, [get] returns the touched record at every time up to
    and including [now + ttl]; after [now + ttl] the key has run out and
    [get] returns [None], leaving the key space as it is. *)
Theorem redis_touch_then_save_keeps_alive `{JsonLaws payload} `{!RedisRules}
    (now : Qc) (sid : string) (d : SessionData) (z : Z) (m : gmap string pyval)
    (ks : gmap string (entry payload)) :
  ttl d = VInt z → takes_ex now z = true → Binary64.exact (Qc_of_Z z) →
  files d = VDict m →
  ∃ ks1, Redis.save now sid (SessionData.touch now d) ks = Ok (tt, ks1) ∧
         (∀ now', (now' ≤ now + Qc_of_Z z)%Qc →
            Redis.get now' sid ks1 = Ok (Some (SessionData.touch now d), ks1)) ∧
         (∀ now', (now + Qc_of_Z z < now')%Qc →
            Redis.get now' sid ks1 = Ok (None, ks1)).
Proof.
  intros Ht Hz Hex Hf.
  assert (Hnum : Py.as_number (ttl d) = Some (Qc_of_Z z)) by (by rewrite Ht).
  eexists. split_and!.
  - by apply (Redis_save_int now sid (SessionData.touch now d) z ks).
  - intros now' Hle.
    apply (Redis_get_fresh _ _ _ (SessionData.dumps (SessionData.touch now d))).
    + rewrite RedisClient_get_inserted. unfold RedisClient.live; simpl.
      by rewrite bool_decide_eq_true_2.
    + by apply (loads_dumps_dict now' (SessionData.touch now d) m).
    + by apply (expired_touch_live now now' (Qc_of_Z z)).
  - intros now' Hlt. apply Redis_get_absent.
    rewrite RedisClient_get_inserted. unfold RedisClient.live; simpl.
    rewrite bool_decide_eq_false_2; [done |]. by apply Qclt_not_le.
Qed.

Lemma redis_touch_then_save_keeps_alive_witness :
  ∃ ks1, Redis.save (Q2Qc (2000 # 1)) "abc"
           (SessionData.touch (Q2Qc (2000 # 1)) python_session) one_key
           = Ok (tt, ks1) ∧
         (∀ now', (now' ≤ Q2Qc (2000 # 1) + Qc_of_Z 2)%Qc →
            Redis.get now' "abc" ks1
              = Ok (Some (SessionData.touch (Q2Qc (2000 # 1)) python_session), ks1)) ∧
         (∀ now', (Q2Qc (2000 # 1) + Qc_of_Z 2 < now')%Qc →
            Redis.get now' "abc" ks1 = Ok (None, ks1)).
Proof.
  apply (redis_touch_then_save_keeps_alive (payload := text) (Q2Qc (2000 # 1)) "abc"
           python_session 2 (VStr <$> {["a.py" := "x"]}) one_key);
    [reflexivity | reflexivity | apply round_int; lia | reflexivity].
Defined.

(** X17: a variable set to the empty string counts as not set.  With
    [REDIS_URL] empty or unset and [REDIS_URI] holding a non-empty string
    the Redis store is built from [REDIS_URI]; with each of the two empty
    or unset the in-memory store is returned, and the client library is
    not called at all. *)
Theorem get_store_empty_value_is_unset {client : Type}
    (from_url : pyval → result client) (environ : gmap string string) :
  (environ !! "REDIS_URL" = None ∨ environ !! "REDIS_URL" = Some "") →
  (∀ u, environ !! "REDIS_URI" = Some u → u ≠ "" →
        get_store from_url environ = new_RedisSessionStore from_url (VStr u)) ∧
  (environ !! "REDIS_URI" = None ∨ environ !! "REDIS_URI" = Some "" →
   get_store from_url environ = Ok (MemorySessionStore ∅) ∧
   ∀ from_url' : pyval → result client,
     get_store from_url' environ = get_store from_url environ).
Proof.
  intros H1.
  assert (Hf1 : Py.truthy (getenv environ "REDIS_URL") = false).
  { unfold getenv. by destruct H1 as [-> | ->]. }
  split.
  - intros u H2 Hu. by apply get_store_second.
  - intros H2.
    assert (Hf2 : Py.truthy (getenv environ "REDIS_URI") = false).
    { unfold getenv. by destruct H2 as [-> | ->]. }
    split; [by apply get_store_neither |].
    intros from_url'. by rewrite !get_store_neither.
Qed.

Lemma get_store_empty_value_is_unset_witness :
  get_store redis_scheme_only
      (<["REDIS_URL" := ""]> {["REDIS_URI" := "redis://other:6379/1"]})
    = new_RedisSessionStore redis_scheme_only (VStr "redis://other:6379/1").
Proof.
  destruct (get_store_empty_value_is_unset redis_scheme_only
              (<["REDIS_URL" := ""]> {["REDIS_URI" := "redis://other:6379/1"]}))
    as [H _]; [right; reflexivity |].
  apply H; [reflexivity | discriminate].
Defined.

(** X18: when the expiration check, and with it [get] of the in-memory
    store, raises.  [expired()] raises a [TypeError] when [last_used] is
    not a number (an int, a float or a bool), an [OverflowError] when
    [last_used] is an int too large for a float (every int from [2^1024]
    on is, none below [2^53] is), and a [TypeError] when [last_used]
    passes and [ttl] is not a number; it raises in no other case.  [get]
    of the in-memory store raises exactly when [expired()] raises on the
    record stored under the id, and never for an id that has none. *)
Theorem expired_raises_type_or_overflow (now : Qc) (d : SessionData) (e : exn) :
  (SessionData.expired now d = Raise e ↔
   (e = TypeError ∧ Py.as_number (last_used d) = None) ∨
   (e = OverflowError ∧
    ∃ z, last_used d = VInt z ∧ ∀ q, Binary64.round (Qc_of_Z z) ≠ Fin q) ∨
   (e = TypeError ∧ Py.as_number (ttl d) = None ∧
    ∃ y, Py.to_float (last_used d) = Ok y)) ∧
  (∀ z, (- 2 ^ 53 < z < 2 ^ 53 → Binary64.round (Qc_of_Z z) = Fin (Qc_of_Z z)) ∧
        (2 ^ 1024 ≤ z → Binary64.round (Qc_of_Z z) = PInf)) ∧
  (∀ (sid : string) (s : gmap string SessionData),
     Memory.get now sid s = Raise e ↔
     ∃ d', s !! sid = Some d' ∧ SessionData.expired now d' = Raise e).
Proof.
  split_and!.
  - unfold SessionData.expired, Py.float_sub, Py.float_gt.
    destruct (last_used d) as [| b | z | u | | |] eqn:Hu; simpl.
    all: try (split; [intros [= <-]; by left
                     | by intros [[-> _] | [(_ & ? & ? & _) | (_ & _ & ? & ?)]]]).
    + destruct (Py.as_number (ttl d)) as [t|]; cbn.
      * split; [done |]. by intros [[_ ?] | [(_ & ? & ? & _) | (_ & ? & _)]].
      * split; [intros [= <-]; right; right; eauto |].
        by intros [[_ ?] | [(_ & ? & ? & _) | (-> & _)]].
    + destruct (Binary64.round (Qc_of_Z z)) as [q| |] eqn:Hr; cbn.
      * destruct (Py.as_number (ttl d)) as [t|]; cbn.
        -- split; [done |].
           intros [[_ ?] | [(_ & z' & [= <-] & Hq) | (_ & ? & _)]]; try done.
           by destruct (Hq q).
        -- split; [intros [= <-]; right; right; eauto |].
           intros [[_ ?] | [(_ & z' & [= <-] & Hq) | (-> & _)]]; try done.
           by destruct (Hq q).
      * split; [intros [= <-]; right; left; split; [done |]; exists z;
                  split; [done |]; intros q; congruence |].
        by intros [[_ ?] | [(-> & _) | (_ & _ & ? & ?)]].
      * split; [intros [= <-]; right; left; split; [done |]; exists z;
                  split; [done |]; intros q; congruence |].
        by intros [[_ ?] | [(-> & _) | (_ & _ & ? & ?)]].
    + destruct (Py.as_number (ttl d)) as [t|]; cbn.
      * split; [done |]. by intros [[_ ?] | [(_ & ? & ? & _) | (_ & ? & _)]].
      * split; [intros [= <-]; right; right; eauto |].
        by intros [[_ ?] | [(_ & ? & ? & _) | (-> & _)]].
  - intros z. split; [apply round_int | apply round_huge].
  - intros sid s. unfold Memory.get. destruct (s !! sid) as [d'|].
    + destruct (SessionData.expired now d') as [[|]|e'] eqn:He; cbn.
      * split; [done |]. by intros (? & [= <-] & ?); congruence.
      * split; [done |]. by intros (? & [= <-] & ?); congruence.
      * split; [intros [= ->]; by exists d' |].
        intros (? & [= <-] & ?); congruence.
    + split; [done |]. by intros (? & ? & _).
Qed.

Lemma expired_raises_type_or_overflow_witness :
  Memory.get 0%Qc "abc"
      {["abc" := {| language := VInt 5; ttl := VStr "soon"; last_used := VNone;
                    files := VList [VInt 1] |}]}
    = Raise TypeError ∧
  SessionData.expired 0%Qc overflowing_session = Raise OverflowError.
Proof.
  destruct (expired_raises_type_or_overflow 0%Qc overflowing_session OverflowError)
    as (He & Hz & _).
  destruct (expired_raises_type_or_overflow 0%Qc python_session TypeError)
    as (_ & _ & Hm).
  split.
  - apply Hm. eexists. split; reflexivity.
  - apply He. right; left. split; [reflexivity |].
    exists (10 ^ 400). split; [reflexivity |].
    intros q. rewrite (proj2 (Hz (10 ^ 400))); [discriminate | lia].
Defined.
